(** * Cluster agent: controller orchestration and the v1 metadata query API

    A shallow embedding of

    - [pkg/util/kubernetes/apiserver/controllers.go]: the controller catalog
      and [StartControllers];
    - [cmd/cluster-agent/api/v1/install.go]: the handlers of the v1 API
      ([getNodeMetadata], [getPodMetadata], [getPodMetadataForNode],
      [getAllMetadata], [getAllCFAppsMetadata]);

    together with a model of the metadata aggregator, whose code is not part
    of the sources at hand and is taken from the specification.

    Effectful Go code is written in a small state monad.  Calls the code makes
    to functions it receives (the catalog's closures, the informer factory,
    the apiserver package) are recorded, so that orderings and counts of calls
    can be stated. *)

From stdpp Require Import base option list gmap strings fin_maps.
From Stdlib Require Import ZArith DecimalString.

Open Scope string_scope.

(** ** A state monad for the effects of the Go code *)

Definition State (S A : Type) : Type := S -> A * S.

Definition ret {S A} (a : A) : State S A := fun s => (a, s).

Definition bind {S A B} (m : State S A) (k : A -> State S B) : State S B :=
  fun s => let (a, s') := m s in k a s'.

Definition modify {S} (f : S -> S) : State S unit := fun s => (tt, f s).

Definition exec {S A} (m : State S A) (s : S) : S := snd (m s).
Definition eval {S A} (m : State S A) (s : S) : A := fst (m s).

Declare Scope go_scope.
Delimit Scope go_scope with go.
Notation "x <- m ;; k" := (bind m (fun x => k))
  (at level 100, m at next level, k at level 200, right associativity) : go_scope.
Notation "m ;; k" := (bind m (fun _ => k))
  (at level 100, k at level 200, right associativity) : go_scope.

(** Go's [error] values are observed by this code only through [Error()]. *)
Definition error : Type := string.

(** ** controllers.go *)

Module Orchestrator.

Section Controllers.

(** What the start routines and predicates act on (configuration, informer
    registrations, goroutines started): opaque to the orchestrator. *)
Variable World : Type.

(** The field types of [ControllerContext] come from client-go and the
    watermarkpodautoscaler client. *)
Variables SharedInformerFactory WPAInterface WPAInformerFactoryT
  KubeInterface LeaderElectorInterface EventRecorderT StopChan : Type.

Record ControllerContext := {
  InformerFactory : SharedInformerFactory;
  WPAClient : WPAInterface;
  WPAInformerFactory : WPAInformerFactoryT;
  Client : KubeInterface;
  LeaderElector : LeaderElectorInterface;
  EventRecorder : EventRecorderT;
  StopCh : StopChan;
}.

(** [ctx.InformerFactory.Start(ctx.StopCh)] *)
Variable factory_Start : SharedInformerFactory -> StopChan -> World -> World.

(** [type controllerFuncs struct { enabled func() bool; start func(ControllerContext) error }]
    Both fields are Go closures: they may read and change the world. *)
Record controllerFuncs := {
  enabled : World -> bool * World;
  start : ControllerContext -> World -> option error * World;
}.

(** What [StartControllers] does that can be observed from outside. *)
Inductive Event :=
| CallEnabled (name : string) (result : bool)
| CallStart (name : string) (result : option error)
| LogInfof (name : string)                (* "%q is disabled" *)
| LogErrorf (name : string) (err : error) (* "Error starting %q: %s" *)
| FactoryStart.

#[global] Instance Event_eq_dec : EqDecision Event.
Proof. solve_decision. Defined.

Record Run := {
  world : World;
  trace : list Event;
}.

Definition emit (e : Event) : State Run unit :=
  modify (fun r => {| world := world r; trace := trace r ++ [e] |}).

Definition call_enabled (name : string) (f : controllerFuncs) : State Run bool :=
  fun r =>
    let (b, w) := enabled f (world r) in
    (b, {| world := w; trace := trace r ++ [CallEnabled name b] |}).

Definition call_start (name : string) (f : controllerFuncs)
    (ctx : ControllerContext) : State Run (option error) :=
  fun r =>
    let (e, w) := start f ctx (world r) in
    (e, {| world := w; trace := trace r ++ [CallStart name e] |}).

Definition call_factory_Start (ctx : ControllerContext) : State Run unit :=
  fun r =>
    (tt, {| world := factory_Start (InformerFactory ctx) (StopCh ctx) (world r);
            trace := trace r ++ [FactoryStart] |}).

(** One iteration of the [for name, cntrlFuncs := range controllerCatalog] loop. *)
Definition range_step (ctx : ControllerContext)
    (entry : string * controllerFuncs) : State Run unit :=
  (let (name, cntrlFuncs) := entry in
   b <- call_enabled name cntrlFuncs ;;
   if negb b then
     emit (LogInfof name)          (* continue *)
   else
     err <- call_start name cntrlFuncs ctx ;;
     match err with
     | Some e => emit (LogErrorf name e)
     | None => ret tt
     end)%go.

Fixpoint range_loop (ctx : ControllerContext)
    (order : list (string * controllerFuncs)) : State Run unit :=
  match order with
  | [] => ret tt
  | entry :: rest => (range_step ctx entry ;; range_loop ctx rest)%go
  end.

(** [controllerCatalog] is a Go map; [range] visits its entries once each, in
    an order the language leaves open.  [order] is the order of one run. *)
Definition range_order (catalog : gmap string controllerFuncs)
    (order : list (string * controllerFuncs)) : Prop :=
  order ≡ₚ map_to_list catalog.

(** [func StartControllers(ctx ControllerContext) error] *)
Definition StartControllers (order : list (string * controllerFuncs))
    (ctx : ControllerContext) : State Run (option error) :=
  (range_loop ctx order ;;
   call_factory_Start ctx ;;
   ret None)%go.

Definition init (w : World) : Run := {| world := w; trace := [] |}.

(** The events of a run started in world [w]. *)
Definition run_trace (order : list (string * controllerFuncs))
    (ctx : ControllerContext) (w : World) : list Event :=
  trace (exec (StartControllers order ctx) (init w)).



End Controllers.

Arguments InformerFactory {_ _ _ _ _ _ _} _.
Arguments StopCh {_ _ _ _ _ _ _} _.
Arguments enabled {_ _ _ _ _ _ _ _} _ _.
Arguments start {_ _ _ _ _ _ _ _} _ _ _.
Arguments world {_} _.
Arguments trace {_} _.
Arguments emit {_} _ _.
Arguments call_enabled {_ _ _ _ _ _ _ _} _ _ _.
Arguments call_start {_ _ _ _ _ _ _ _} _ _ _ _.
Arguments call_factory_Start {_ _ _ _ _ _ _ _} _ _ _.
Arguments range_step {_ _ _ _ _ _ _ _} _ _ _.
Arguments range_loop {_ _ _ _ _ _ _ _} _ _ _.
Arguments range_order {_ _ _ _ _ _ _ _} _ _.
Arguments StartControllers {_ _ _ _ _ _ _ _} _ _ _ _.
Arguments run_trace {_ _ _ _ _ _ _ _} _ _ _ _.
Arguments init {_} _.

(** The controller an event is about. *)
Definition event_name (e : Event) : option string :=
  match e with
  | CallEnabled n _ | CallStart n _ | LogInfof n | LogErrorf n _ => Some n
  | FactoryStart => None
  end.

(** The three ways one iteration of the loop can go for entry [name]. *)
Inductive entry_events (name : string) : list Event -> Prop :=
| entry_disabled :
    entry_events name [CallEnabled name false; LogInfof name]
| entry_started :
    entry_events name [CallEnabled name true; CallStart name None]
| entry_failed (e : error) :
    entry_events name
      [CallEnabled name true; CallStart name (Some e); LogErrorf name e].

(** The events of the whole loop over entries named [names], in order. *)
Inductive loop_events : list string -> list Event -> Prop :=
| loop_done : loop_events [] []
| loop_next name names evs rest :
    entry_events name evs ->
    loop_events names rest ->
    loop_events (name :: names) (evs ++ rest).

(** A catalog for examples: the world is the list of controllers started so
    far; "metadata" is enabled and fails to sync, "services" is disabled,
    "endpoints" is enabled and starts. *)
Definition example_ctx : ControllerContext unit unit unit unit unit unit unit :=
  {| InformerFactory := tt; WPAClient := tt; WPAInformerFactory := tt;
     Client := tt; LeaderElector := tt; EventRecorder := tt; StopCh := tt |}.

Definition example_funcs (on : bool) (name : string) (err : option error)
    : controllerFuncs (list string) unit unit unit unit unit unit unit :=
  {| enabled := fun w => (on, w);
     start := fun _ w => (err, name :: w) |}.

Definition example_metadata := example_funcs true "metadata" (Some "timed out").
Definition example_services := example_funcs false "services" None.
Definition example_endpoints := example_funcs true "endpoints" None.

Definition example_catalog
    : gmap string (controllerFuncs (list string) unit unit unit unit unit unit unit) :=
  <["metadata" := example_metadata]>
    (<["services" := example_services]>
       (<["endpoints" := example_endpoints]> ∅)).

Definition example_order
    : list (string * controllerFuncs (list string) unit unit unit unit unit unit unit) :=
  [("services", example_services); ("metadata", example_metadata);
   ("endpoints", example_endpoints)].

Definition example_factory_Start (_ _ : unit) (w : list string) : list string :=
  "informers" :: w.

Definition is_start_call (name : string) (e : Event) : bool :=
  match e with
  | CallStart n _ => bool_decide (n = name)
  | _ => false
  end.

(** How often the start routine of entry [name] was called. *)
Definition start_calls (name : string) (tr : list Event) : nat :=
  length (filter (fun e => is_start_call name e = true) tr).

(** The entries in the order their predicates were evaluated. *)
Definition enabled_order (tr : list Event) : list string :=
  omap (fun e => match e with CallEnabled n _ => Some n | _ => None end) tr.

(** Predicates that answer by a flag of the configuration: on every world
    that satisfies [I], the predicate of entry [n] answers [flag n], and
    neither the predicates nor the start routines leave [I]. *)
Definition stable_flags {World SIF WPA WPAF KI LE ER SC : Type}
    (I : World -> Prop) (flag : string -> bool)
    (catalog : gmap string (controllerFuncs World SIF WPA WPAF KI LE ER SC)) : Prop :=
  forall n f, catalog !! n = Some f ->
    forall w, I w ->
      (enabled f w).1 = flag n
      /\ I (enabled f w).2
      /\ forall ctx, I (start f ctx w).2.

Definition example_flag (name : string) : bool :=
  negb (bool_decide (name = "services")).

(** *** What a run does to the world

    The events alone do not say that a predicate or a start routine was
    applied.  The relations below tie every event of the loop to the
    application that produced it and thread the world through them, as the Go
    loop does. *)

Section Runs.

Context {World SIF WPA WPAF KI LE ER SC : Type}.
Variable factory_Start : SIF -> SC -> World -> World.

Local Abbreviation funcs := (controllerFuncs World SIF WPA WPAF KI LE ER SC).
Local Abbreviation context := (ControllerContext SIF WPA WPAF KI LE ER SC).

(** One iteration for entry [name]: the predicate is applied to the world
    as it is; where it answers true the start routine is applied to the world
    the predicate left. *)
Inductive entry_run (ctx : context) (name : string) (f : funcs)
    : World -> list Event -> World -> Prop :=
| entry_run_disabled w w1 :
    enabled f w = (false, w1) ->
    entry_run ctx name f w [CallEnabled name false; LogInfof name] w1
| entry_run_started w w1 w2 :
    enabled f w = (true, w1) ->
    start f ctx w1 = (None, w2) ->
    entry_run ctx name f w [CallEnabled name true; CallStart name None] w2
| entry_run_failed w w1 w2 e :
    enabled f w = (true, w1) ->
    start f ctx w1 = (Some e, w2) ->
    entry_run ctx name f w
      [CallEnabled name true; CallStart name (Some e); LogErrorf name e] w2.

(** The loop over [order], from world to world. *)
Inductive loop_run (ctx : context)
    : list (string * funcs) -> World -> list Event -> World -> Prop :=
| loop_run_done w : loop_run ctx [] w [] w
| loop_run_next name f rest w evs w1 evs' w2 :
    entry_run ctx name f w evs w1 ->
    loop_run ctx rest w1 evs' w2 ->
    loop_run ctx ((name, f) :: rest) w (evs ++ evs')%list w2.

(** The world a run of [StartControllers] leaves. *)
Definition run_world (order : list (string * funcs)) (ctx : context) (w : World)
    : World :=
  world (exec (StartControllers factory_Start order ctx) (init w)).

(** Entry [(name, f)] was visited in the run, and only once: the run is the
    loop over the entries before it, the iteration for the entry itself, the
    loop over the entries after it, none of which bears its name, and then
    the start of the informer factory on the world all of that left. *)
Definition visited_once (order : list (string * funcs)) (ctx : context) (w : World)
    (name : string) (f : funcs) : Prop :=
  exists before after wa wb w' evs_b evs_n evs_a,
    order = (before ++ (name, f) :: after)%list
    /\ (name ∉ before.*1) /\ (name ∉ after.*1)
    /\ loop_run ctx before w evs_b wa
    /\ entry_run ctx name f wa evs_n wb
    /\ loop_run ctx after wb evs_a w'
    /\ run_trace factory_Start order ctx w
       = ((evs_b ++ evs_n ++ evs_a) ++ [FactoryStart])%list
    /\ run_world order ctx w = factory_Start (InformerFactory ctx) (StopCh ctx) w'.

(** The start routine of the entry named [name] was applied in the run: at
    the world [wa] the loop had reached, its predicate answered true, and the
    run went on from the world its start routine returned. *)
Definition really_started (order : list (string * funcs)) (ctx : context) (w : World)
    (name : string) : Prop :=
  exists f before after wa w1 wb res w' evs_b evs_a,
    order = (before ++ (name, f) :: after)%list
    /\ loop_run ctx before w evs_b wa
    /\ enabled f wa = (true, w1)
    /\ start f ctx w1 = (res, wb)
    /\ loop_run ctx after wb evs_a w'
    /\ run_world order ctx w = factory_Start (InformerFactory ctx) (StopCh ctx) w'.

End Runs.

End Orchestrator.

(** ** install.go *)

Module QueryAPI.

(** *** net/http: status codes and the response writer *)

Definition StatusOK : Z := 200.
Definition StatusNotFound : Z := 404.
Definition StatusInternalServerError : Z := 500.
Definition StatusServiceUnavailable : Z := 503.

(** [strconv.Itoa] *)
Definition Itoa (i : Z) : string := NilZero.string_of_int (Z.to_int i).

(** An [http.ResponseWriter]: the status line goes out with the first
    [WriteHeader] (or with the first [Write], as 200); a later [WriteHeader]
    is superfluous and changes nothing.  Header fields are left out. *)
Record ResponseWriter := {
  status : option Z;
  body : string;
}.

Definition WriteHeader_w (code : Z) (w : ResponseWriter) : ResponseWriter :=
  match status w with
  | Some _ => w
  | None => {| status := Some code; body := body w |}
  end.

Definition Write_w (b : string) (w : ResponseWriter) : ResponseWriter :=
  let w' := WriteHeader_w StatusOK w in
  {| status := status w'; body := body w' +:+ b |}.

Definition newline : string := String (Ascii.ascii_of_nat 10) EmptyString.

(** [http.Error(w, msg, code)]: [w.WriteHeader(code); fmt.Fprintln(w, msg)] *)
Definition Error_w (msg : string) (code : Z) (w : ResponseWriter) : ResponseWriter :=
  Write_w (msg +:+ newline) (WriteHeader_w code w).

(** *** pkg/util/log and pkg/telemetry *)

Inductive Level := TraceLvl | WarnLvl | ErrorLvl.

#[global] Instance Level_eq_dec : EqDecision Level.
Proof. solve_decision. Defined.

(** The state a handler acts on: the response under construction, the
    [api_requests] counter with its label pairs (handler, status), and the
    lines the handler logs. *)
Record Server := {
  w : ResponseWriter;
  apiRequests : gmap (string * string) nat;
  logged : list (Level * string);
}.

Definition counter_Inc (key : string * string)
    (c : gmap (string * string) nat) : gmap (string * string) nat :=
  <[key := S (default 0%nat (c !! key))]> c.

Definition WriteHeader (code : Z) : State Server unit :=
  modify (fun s => {| w := WriteHeader_w code (w s);
                      apiRequests := apiRequests s; logged := logged s |}).

Definition Write (b : string) : State Server unit :=
  modify (fun s => {| w := Write_w b (w s);
                      apiRequests := apiRequests s; logged := logged s |}).

Definition http_Error (msg : string) (code : Z) : State Server unit :=
  modify (fun s => {| w := Error_w msg code (w s);
                      apiRequests := apiRequests s; logged := logged s |}).

(** [apiRequests.Inc(handler, status)] *)
Definition apiRequests_Inc (handler status : string) : State Server unit :=
  modify (fun s => {| w := w s;
                      apiRequests := counter_Inc (handler, status) (apiRequests s);
                      logged := logged s |}).

Definition log_at (l : Level) (msg : string) : State Server unit :=
  modify (fun s => {| w := w s; apiRequests := apiRequests s;
                      logged := logged s ++ [(l, msg)] |}).

(** [func incrementRequestMetric(handler string, status int)] *)
Definition incrementRequestMetric (handler : string) (status : Z) : State Server unit :=
  apiRequests_Inc handler (Itoa status).

(** *** encoding/json on the values the handlers encode *)

(** A Go value as [json.Marshal] sees it.  The handlers encode what the
    apiserver package returns: strings, slices and maps with string keys (a
    map's entries are listed in the order of the output), possibly nil.
    [VUnsupported] stands for a value [json.Marshal] rejects, with the text of
    its error. *)
#[warnings="-register-all"] Inductive GoValue :=
| VNil
| VString (s : string)
| VSlice (l : list GoValue)
| VMap (kvs : list (string * GoValue))
| VUnsupported (err : error).

Definition dquote : string := String (Ascii.ascii_of_nat 34) EmptyString.

Section Json.

(** The escaping [encoding/json] applies inside a string literal. *)
Variable escape : string -> string.

Definition encodeString (s : string) : string := dquote +:+ escape s +:+ dquote.

Fixpoint encode (v : GoValue) : string + error :=
  match v with
  | VNil => inl "null"
  | VString s => inl (encodeString s)
  | VSlice l =>
      match
        (fix elems (l : list GoValue) : list string + error :=
           match l with
           | [] => inl []
           | x :: rest =>
               match encode x with
               | inr e => inr e
               | inl b =>
                   match elems rest with
                   | inr e => inr e
                   | inl bs => inl (b :: bs)
                   end
               end
           end) l
      with
      | inr e => inr e
      | inl bs => inl ("[" +:+ String.concat "," bs +:+ "]")
      end
  | VMap kvs =>
      match
        (fix members (kvs : list (string * GoValue)) : list string + error :=
           match kvs with
           | [] => inl []
           | (k, x) :: rest =>
               match encode x with
               | inr e => inr e
               | inl b =>
                   match members rest with
                   | inr e => inr e
                   | inl bs => inl ((encodeString k +:+ ":" +:+ b) :: bs)
                   end
               end
           end) kvs
      with
      | inr e => inr e
      | inl bs => inl ("{" +:+ String.concat "," bs +:+ "}")
      end
  | VUnsupported e => inr e
  end.

(** [json.Marshal(v)]: the bytes and a nil error, or no bytes and the error. *)
Definition json_Marshal (v : GoValue) : string * option error :=
  match encode v with
  | inl b => (b, None)
  | inr e => ("", Some e)
  end.

End Json.

(** *** The handlers *)

(** [mux.Vars(r)]: the variables of the matched route. *)
Record Request := {
  Vars : gmap string string;
}.

(** Indexing a Go map: the zero value when the key is absent. *)
Definition index (vars : gmap string string) (key : string) : string :=
  default "" (vars !! key).

Section Handlers.

Variable escape : string -> string.

(** The functions of [pkg/util/kubernetes/apiserver] and
    [pkg/util/cloudfoundry] the handlers call.  A Go result pair
    [(value, err)] is a pair whose second component is [None] for a nil error. *)
Variables APIClient BBSCache : Type.
Variable GetGlobalBBSCache : BBSCache * option error.
Variable ExtractTags : BBSCache -> GoValue.
Variable GetNodeLabels : string -> GoValue * option error.
Variable GetPodMetadataNames : string -> string -> string -> GoValue * option error.
Variable GetMetadataMapBundleOnNode : string -> GoValue * option error.
Variable GetAPIClient : APIClient * option error.
Variable GetMetadataMapBundleOnAllNodes : APIClient -> GoValue * option error.

Local Open Scope go_scope.

(** [func getAllCFAppsMetadata(w http.ResponseWriter, r *http.Request)] *)
Definition getAllCFAppsMetadata (r : Request) : State Server unit :=
  let '(bbsCache, err) := GetGlobalBBSCache in
  match err with
  | Some e =>
      log_at ErrorLvl ("Could not retrieve BBS cache: " +:+ e) ;;
      http_Error e StatusInternalServerError ;;
      apiRequests_Inc "getCFAppMetadata" (Itoa StatusInternalServerError)
  | None =>
      let tags := ExtractTags bbsCache in
      let '(tagsBytes, err) := json_Marshal escape tags in
      match err with
      | Some e =>
          log_at ErrorLvl ("Could not process tags for CF applications: " +:+ e) ;;
          http_Error e StatusInternalServerError ;;
          apiRequests_Inc "getAllCFAppsMetadata" (Itoa StatusInternalServerError)
      | None =>
          if (0 <? String.length tagsBytes)%nat then
            WriteHeader StatusOK ;;
            Write tagsBytes ;;
            apiRequests_Inc "getAllCFAppsMetadata" (Itoa StatusOK)
          else ret tt
      end
  end.

(** [func getNodeMetadata(w http.ResponseWriter, r *http.Request)] *)
Definition getNodeMetadata (r : Request) : State Server unit :=
  let vars := Vars r in
  let nodeName := index vars "nodeName" in
  let '(nodeLabels, err) := GetNodeLabels nodeName in
  match err with
  | Some e =>
      log_at ErrorLvl ("Could not retrieve the node labels of " +:+ nodeName +:+ ": " +:+ e) ;;
      http_Error e StatusInternalServerError ;;
      apiRequests_Inc "getNodeMetadata" (Itoa StatusInternalServerError)
  | None =>
      let '(labelBytes, err) := json_Marshal escape nodeLabels in
      match err with
      | Some e =>
          log_at ErrorLvl ("Could not process the labels of the node " +:+ nodeName
                           +:+ " from the informer's cache: " +:+ e) ;;
          http_Error e StatusInternalServerError ;;
          apiRequests_Inc "getNodeMetadata" (Itoa StatusInternalServerError)
      | None =>
          if (0 <? String.length labelBytes)%nat then
            WriteHeader StatusOK ;;
            Write labelBytes ;;
            apiRequests_Inc "getNodeMetadata" (Itoa StatusOK)
          else
            WriteHeader StatusNotFound ;;
            apiRequests_Inc "getNodeMetadata" (Itoa StatusNotFound) ;;
            Write ("Could not find labels on the node: " +:+ nodeName)
      end
  end.

(** [func getPodMetadata(w http.ResponseWriter, r *http.Request)] *)
Definition getPodMetadata (r : Request) : State Server unit :=
  let vars := Vars r in
  let nodeName := index vars "nodeName" in
  let podName := index vars "podName" in
  let ns := index vars "ns" in
  let '(metaList, errMetaList) := GetPodMetadataNames nodeName ns podName in
  match errMetaList with
  | Some e =>
      log_at ErrorLvl ("Could not retrieve the metadata of: " +:+ podName +:+ " from the cache") ;;
      http_Error e StatusInternalServerError ;;
      apiRequests_Inc "getPodMetadata" (Itoa StatusInternalServerError)
  | None =>
      let '(metaBytes, err) := json_Marshal escape metaList in
      match err with
      | Some e =>
          log_at ErrorLvl ("Could not process the list of services for: " +:+ podName) ;;
          http_Error e StatusInternalServerError ;;
          apiRequests_Inc "getPodMetadata" (Itoa StatusInternalServerError)
      | None =>
          if negb (String.length metaBytes =? 0)%nat then
            WriteHeader StatusOK ;;
            Write metaBytes ;;
            apiRequests_Inc "getPodMetadata" (Itoa StatusOK)
          else
            WriteHeader StatusNotFound ;;
            apiRequests_Inc "getPodMetadata" (Itoa StatusNotFound) ;;
            Write ("Could not find associated metadata mapped to the pod: " +:+ podName
                   +:+ " on node: " +:+ nodeName)
      end
  end.

(** [func getPodMetadataForNode(w http.ResponseWriter, r *http.Request)] *)
Definition getPodMetadataForNode (r : Request) : State Server unit :=
  let vars := Vars r in
  let nodeName := index vars "nodeName" in
  log_at TraceLvl ("Fetching metadata map on all pods of the node " +:+ nodeName) ;;
  let '(metaList, errNodes) := GetMetadataMapBundleOnNode nodeName in
  match errNodes with
  | Some e => log_at WarnLvl ("Could not collect the service map for " +:+ nodeName
                              +:+ ", err: " +:+ e)
  | None => ret tt
  end ;;
  let '(slcB, err) := json_Marshal escape metaList in
  match err with
  | Some e =>
      http_Error e StatusInternalServerError ;;
      apiRequests_Inc "getPodMetadataForNode" (Itoa StatusInternalServerError)
  | None =>
      if negb (String.length slcB =? 0)%nat then
        WriteHeader StatusOK ;;
        Write slcB ;;
        apiRequests_Inc "getPodMetadataForNode" (Itoa StatusOK)
      else
        WriteHeader StatusNotFound ;;
        apiRequests_Inc "getPodMetadata" (Itoa StatusNotFound)
  end.

(** [func getAllMetadata(w http.ResponseWriter, r *http.Request)] *)
Definition getAllMetadata (r : Request) : State Server unit :=
  log_at TraceLvl "Computing metadata map on all nodes" ;;
  let '(cl, err) := GetAPIClient in
  match err with
  | Some e =>
      log_at ErrorLvl ("Can't create client to query the API Server: " +:+ e) ;;
      http_Error e StatusInternalServerError ;;
      apiRequests_Inc "getAllMetadata" (Itoa StatusInternalServerError)
  | None =>
      let '(metaList, errAPIServer) := GetMetadataMapBundleOnAllNodes cl in
      match errAPIServer with
      | Some e =>
          WriteHeader StatusServiceUnavailable ;;
          log_at ErrorLvl ("There was an error querying the nodes from the API: " +:+ e)
      | None => WriteHeader StatusOK
      end ;;
      let '(metaListBytes, err) := json_Marshal escape metaList in
      match err with
      | Some e =>
          http_Error e StatusInternalServerError ;;
          apiRequests_Inc "getAllMetadata" (Itoa StatusInternalServerError)
      | None =>
          if negb (String.length metaListBytes =? 0)%nat then
            Write metaListBytes ;;
            apiRequests_Inc "getAllMetadata" (Itoa StatusOK)
          else
            WriteHeader StatusNotFound ;;
            apiRequests_Inc "getAllMetadata" (Itoa StatusNotFound)
      end
  end.

End Handlers.

Arguments getAllMetadata _ {_} _ _ _ _.
Arguments getAllCFAppsMetadata _ {_} _ _ _ _.

(** Requests and collaborators for examples. *)
Definition example_request (node : string) : Request :=
  {| Vars := {["nodeName" := node]} |}.

(** A whole-cluster answer in which node n1 was computed and node n2 was not. *)
Definition example_partial_bundle : GoValue :=
  VMap [("Errors", VString "n2: not found in the cache");
        ("Nodes", VMap [("n1", VMap [("default/p1", VSlice [VString "kube_service:svc-a"])])])].

Definition example_partial_bytes : string :=
  match encode id example_partial_bundle with
  | inl b => b
  | inr _ => ""
  end.

(** The apiserver package answering for a cluster in which node n2 fails. *)
Definition example_all_nodes (_ : unit) : GoValue * option error :=
  (example_partial_bundle, Some "n2: not found in the cache").

(** The answer the handler's own documentation gives as its example for
    status 200: two nodes computed, and an error marker for a third. *)
Definition example_documented_bundle : GoValue :=
  VMap [("Error", VString "the key KubernetesMetadataMapping/Node3 not found in the cache");
        ("Node1", VMap [("pod1", VSlice [VString "svc1"]); ("pod2", VSlice [VString "svc2"])]);
        ("Node2", VMap [("pod3", VSlice [VString "svc1"])])].

(** A label lookup that knows no node. *)
Definition example_no_labels (node : string) : GoValue * option error :=
  (VNil, Some ("no cached metadata found for the node " +:+ node)).

(** The counter [c'] is [c] with exactly one series raised by one. *)
Definition one_increment (c c' : gmap (string * string) nat) : Prop :=
  exists key,
    forall k, c' !! k = if decide (k = key) then Some (S (default 0%nat (c !! k)))
                        else c !! k.

(** The status line that went out is one of [allowed]. *)
Definition answered_with (allowed : list Z) (s : Server) : Prop :=
  exists code, status (w s) = Some code /\ code ∈ allowed.

(** A BBS cache and a pod lookup for examples. *)
Definition example_pod_lookup (node ns pod : string) : GoValue * option error :=
  if decide (node = "n1")
  then (VSlice [VString ("kube_service:" +:+ pod)], None)
  else (VNil, Some ("no metadata for pod " +:+ pod +:+ " on node " +:+ node)).

Definition example_pod_request (node ns pod : string) : Request :=
  {| Vars := <["nodeName" := node]> (<["ns" := ns]> (<["podName" := pod]> ∅)) |}.

(** A server that has not yet answered: nothing sent, nothing logged. *)
Definition fresh (c : gmap (string * string) nat) : Server :=
  {| w := {| status := None; body := "" |}; apiRequests := c; logged := [] |}.

End QueryAPI.

(** ** install.go: the routes *)

Module Routes.
Import QueryAPI.

(** A gorilla/mux path template, segment by segment: a literal, or a
    variable [{name}], which matches one non-empty segment. *)
Inductive Segment := Lit (s : string) | Var (name : string).

Definition slash : Ascii.ascii := Ascii.ascii_of_nat 47.
Definition lbrace : Ascii.ascii := Ascii.ascii_of_nat 123.

(** Splitting at the slashes; a path begins with a slash, so the empty
    segment in front of it is dropped. *)
Fixpoint split_slash (s : string) (cur : string) : list string :=
  match s with
  | EmptyString => [cur]
  | String c rest =>
      if Ascii.eqb c slash then cur :: split_slash rest ""
      else split_slash rest (cur +:+ String c EmptyString)
  end.

Definition segments (path : string) : list string := tail (split_slash path "").

Definition parse_segment (seg : string) : Segment :=
  match seg with
  | String c rest =>
      if Ascii.eqb c lbrace then Var (String.substring 0 (String.length rest - 1) rest)
      else Lit seg
  | EmptyString => Lit seg
  end.

Definition parse_template (tpl : string) : list Segment :=
  parse_segment <$> segments tpl.

(** A route of the router: [r.HandleFunc(tpl, f).Methods(m)]. *)
Record Route := {
  template : list Segment;
  methods : list string;
  handler : Request -> State Server unit;
}.

Definition HandleFunc (tpl : string) (f : Request -> State Server unit)
    (method : string) (r : list Route) : list Route :=
  (r ++ [{| template := parse_template tpl; methods := [method]; handler := f |}])%list.

(** Matching a path, split at its slashes, against a template; the result
    is what [mux.Vars] will return. *)
Fixpoint match_template (tpl : list Segment) (path : list string)
    : option (gmap string string) :=
  match tpl, path with
  | [], [] => Some ∅
  | Lit s :: tpl', seg :: path' =>
      if decide (s = seg) then match_template tpl' path' else None
  | Var x :: tpl', seg :: path' =>
      if decide (seg = "") then None
      else <[x := seg]> <$> match_template tpl' path'
  | _, _ => None
  end.

Definition match_route (rt : Route) (method : string) (path : list string)
    : option (gmap string string) :=
  if decide (method ∈ methods rt) then match_template (template rt) path else None.

(** The router tries its routes in the order they were registered. *)
Fixpoint mux_match (r : list Route) (method : string) (path : list string)
    : option ((Request -> State Server unit) * gmap string string) :=
  match r with
  | [] => None
  | rt :: rest =>
      match match_route rt method path with
      | Some vars => Some (handler rt, vars)
      | None => mux_match rest method path
      end
  end.

(** The router cleans the path before it matches ([cleanPath], that is
    [path.Clean] with the trailing slash kept) and redirects when cleaning
    changes it.  A path is left as it is when it begins with a slash, has no
    segment [.] or [..], and has no empty segment but possibly the last. *)
Definition is_dot (s : string) : bool :=
  bool_decide (s = ".") || bool_decide (s = "..").

Fixpoint clean_segments (segs : list string) : bool :=
  match segs with
  | [] => true
  | s :: rest =>
      match rest with
      | [] => negb (is_dot s)
      | _ => negb (is_dot s) && negb (bool_decide (s = "")) && clean_segments rest
      end
  end.

Definition starts_with_slash (path : string) : bool :=
  match path with
  | String c _ => Ascii.eqb c slash
  | EmptyString => false
  end.

Definition is_clean (path : string) : bool :=
  starts_with_slash path && clean_segments (segments path).

(** What becomes of a request: a redirect to the cleaned path (301), the
    handler of the first matching route run on the request with the
    variables of the match, or no handler at all (404 or 405). *)
Inductive Served :=
| Moved
| Handled (h : State Server unit)
| NoHandler.

(** Serving a request for [path], the decoded path of its URL. *)
Definition ServeHTTP (r : list Route) (method : string) (path : string) : Served :=
  if is_clean path then
    match mux_match r method (segments path) with
    | Some (h, vars) => Handled (h {| Vars := vars |})
    | None => NoHandler
    end
  else Moved.

(** A name that can stand as one segment of a clean path: not empty, not
    [.] or [..], and without a slash. *)
Fixpoint no_slash (s : string) : bool :=
  match s with
  | EmptyString => true
  | String c rest => negb (Ascii.eqb c slash) && no_slash rest
  end.

Definition plain (s : string) : bool :=
  negb (bool_decide (s = "")) && negb (is_dot s) && no_slash s.

Section Install.

Variable escape : string -> string.
Variables APIClient BBSCache ServerContext : Type.
Variable GetGlobalBBSCache : BBSCache * option error.
Variable ExtractTags : BBSCache -> GoValue.
Variable GetNodeLabels : string -> GoValue * option error.
Variable GetPodMetadataNames : string -> string -> string -> GoValue * option error.
Variable GetMetadataMapBundleOnNode : string -> GoValue * option error.
Variable GetAPIClient : APIClient * option error.
Variable GetMetadataMapBundleOnAllNodes : APIClient -> GoValue * option error.

(** The two installers of the same package that are not among the sources. *)
Variables installClusterCheckEndpoints installEndpointsCheckEndpoints :
  list Route -> ServerContext -> list Route.

(** The five [r.HandleFunc(...).Methods("GET")] of [Install]. *)
Definition v1_routes (r : list Route) : list Route :=
  HandleFunc "/tags/cf/apps"
    (getAllCFAppsMetadata escape GetGlobalBBSCache ExtractTags) "GET"
  (HandleFunc "/tags/node/{nodeName}"
    (getNodeMetadata escape GetNodeLabels) "GET"
  (HandleFunc "/tags/pod"
    (getAllMetadata escape GetAPIClient GetMetadataMapBundleOnAllNodes) "GET"
  (HandleFunc "/tags/pod/{nodeName}"
    (getPodMetadataForNode escape GetMetadataMapBundleOnNode) "GET"
  (HandleFunc "/tags/pod/{nodeName}/{ns}/{podName}"
    (getPodMetadata escape GetPodMetadataNames) "GET" r)))).

(** [func Install(r *mux.Router, sc clusteragent.ServerContext)] *)
Definition Install (r : list Route) (sc : ServerContext) : list Route :=
  installEndpointsCheckEndpoints
    (installClusterCheckEndpoints (v1_routes r) sc) sc.

End Install.

Arguments v1_routes _ {_ _} _ _ _ _ _ _ _ _.
Arguments Install _ {_ _ _} _ _ _ _ _ _ _ _ _ _ _.

(** An installer registers routes and touches none that are there. *)
Definition only_appends {ServerContext : Type}
    (install : list Route -> ServerContext -> list Route) : Prop :=
  forall r sc, exists more, install r sc = (r ++ more)%list.

(** An installer for examples: one route for the cluster checks. *)
Definition example_installer (tpl : string) (r : list Route) (_ : unit) : list Route :=
  HandleFunc tpl (fun _ => WriteHeader StatusOK) "POST" r.

(** A router for examples: [Install] on a fresh router, with lookups that
    know node n1 only. *)
Definition example_router : list Route :=
  Install id (tt, None) (fun _ : unit => VNil) (fun _ => (VNil, None))
    example_pod_lookup (fun _ => (VMap [], None)) (tt, None)
    (fun _ : unit => (VMap [], None))
    (example_installer "/clusterchecks") (example_installer "/endpointschecks")
    [] tt.

End Routes.

(** ** The metadata aggregator *)

Module MetadataAggregator.

(** Modelled from the spec: the metadata aggregator (the metadata controller
    of the apiserver package, which consumes the Node and Endpoint events, is
    not among the sources).  The bundles are the specification's
    NodeTagBundle (node name to set of label strings) and PodTagBundle (node
    name to (namespace, pod name) to set of tag strings). *)
Record Bundle := {
  NodeTagBundle : gmap string (gset string);
  PodTagBundle : gmap string (gmap (string * string) (gset string));
}.

(** Modelled from the spec: the resource snapshots carried by the events.  A
    Node snapshot gives the node's name and its current label strings; an
    Endpoint snapshot gives the service and its backends, each a pod
    (namespace, name) with the node that owns it. *)
Record Node := {
  node_name : string;
  node_labels : gset string;
}.

Record Backend := {
  backend_node : string;
  backend_ns : string;
  backend_pod : string;
}.

Record Endpoint := {
  service_name : string;
  backends : list Backend;
}.

Inductive Event :=
| NodeAdd (n : Node)
| NodeUpdate (n : Node)
| NodeDelete (n : Node)
| EndpointAdd (e : Endpoint)
| EndpointUpdate (e : Endpoint)
| EndpointDelete (e : Endpoint).

Definition empty_bundle : Bundle :=
  {| NodeTagBundle := ∅; PodTagBundle := ∅ |}.

(** The tag a service gives to its pods. *)
Definition service_tag (svc : string) : string := "kube_service:" +:+ svc.

(** Node add/update: the node's entry is replaced by the snapshot's labels. *)
Definition set_node (n : Node) (b : Bundle) : Bundle :=
  {| NodeTagBundle := <[node_name n := node_labels n]> (NodeTagBundle b);
     PodTagBundle := PodTagBundle b |}.

(** Node delete: the entry is removed. *)
Definition drop_node (n : Node) (b : Bundle) : Bundle :=
  {| NodeTagBundle := delete (node_name n) (NodeTagBundle b);
     PodTagBundle := PodTagBundle b |}.

(** Adding a tag to one pod under its owning node; tags are a set. *)
Definition add_tag (tag : string) (be : Backend)
    (pb : gmap string (gmap (string * string) (gset string)))
    : gmap string (gmap (string * string) (gset string)) :=
  let pods := default ∅ (pb !! backend_node be) in
  let key := (backend_ns be, backend_pod be) in
  let tags := default ∅ (pods !! key) in
  <[backend_node be := <[key := {[tag]} ∪ tags]> pods]> pb.

(** Endpoint add/update: every backend of the service gets the service's tag. *)
Definition tag_backends (e : Endpoint) (b : Bundle) : Bundle :=
  {| NodeTagBundle := NodeTagBundle b;
     PodTagBundle :=
       foldl (fun pb be => add_tag (service_tag (service_name e)) be pb)
             (PodTagBundle b) (backends e) |}.

(** The pod of backend [be] is known in [pb] and carries [tag]. *)
Definition has_tag (tag : string) (be : Backend)
    (pb : gmap string (gmap (string * string) (gset string))) : Prop :=
  exists pods tags,
    pb !! backend_node be = Some pods
    /\ pods !! (backend_ns be, backend_pod be) = Some tags
    /\ tag ∈ tags.

Section Pruning.

(** The specification leaves open whether a pod whose last tag is removed is
    dropped ([true]) or kept with an empty tag set ([false]). *)
Variable prune : bool.

Definition remove_tag (tag : string)
    (pods : gmap (string * string) (gset string))
    : gmap (string * string) (gset string) :=
  let pods' := (fun tags : gset string => tags ∖ {[tag]}) <$> pods in
  if prune then filter (fun kv => kv.2 ≠ ∅) pods' else pods'.

(** Endpoint delete: the service's tag is removed from every pod. *)
Definition untag_service (e : Endpoint) (b : Bundle) : Bundle :=
  {| NodeTagBundle := NodeTagBundle b;
     PodTagBundle := remove_tag (service_tag (service_name e)) <$> PodTagBundle b |}.

(** The event-application function of the aggregator. *)
Definition apply_event (b : Bundle) (ev : Event) : Bundle :=
  match ev with
  | NodeAdd n | NodeUpdate n => set_node n b
  | NodeDelete n => drop_node n b
  | EndpointAdd e | EndpointUpdate e => tag_backends e b
  | EndpointDelete e => untag_service e b
  end.

(** byPod(node, ns, pod): the pod's tags, if the pod is known. *)
Definition byPod (b : Bundle) (node ns pod : string) : option (gset string) :=
  pods ← PodTagBundle b !! node; pods !! (ns, pod).

(** byNode(node): the node's labels, if the node is known. *)
Definition byNode (b : Bundle) (node : string) : option (gset string) :=
  NodeTagBundle b !! node.

End Pruning.

Definition example_endpoint : Endpoint :=
  {| service_name := "svc-a";
     backends := [ {| backend_node := "n1"; backend_ns := "default"; backend_pod := "p1" |};
                   {| backend_node := "n1"; backend_ns := "default"; backend_pod := "p2" |};
                   {| backend_node := "n2"; backend_ns := "kube-system"; backend_pod := "p3" |} ] |}.

End MetadataAggregator.

(** ** controllers.go: the catalog and the start functions *)

Module Controllers.
Import Orchestrator.

Arguments WPAClient {_ _ _ _ _ _ _} _.
Arguments WPAInformerFactory {_ _ _ _ _ _ _} _.
Arguments Client {_ _ _ _ _ _ _} _.
Arguments LeaderElector {_ _ _ _ _ _ _} _.
Arguments EventRecorder {_ _ _ _ _ _ _} _.

(** An informer of a factory, named by the last accessor of the chain that
    leads to it ([Core().V1().Nodes()], ...). *)
Inductive Factory := Shared | WPAShared.

Record InformerId := {
  factory : Factory;
  kind : string;
}.

Definition nodesInformer := {| factory := Shared; kind := "Nodes" |}.
Definition endpointsInformer := {| factory := Shared; kind := "Endpoints" |}.
Definition servicesInformer := {| factory := Shared; kind := "Services" |}.
Definition hpaInformer := {| factory := Shared; kind := "HorizontalPodAutoscalers" |}.
Definition wpaInformer := {| factory := WPAShared; kind := "WatermarkPodAutoscalers" |}.

(** What a [go] statement of the start functions runs. *)
Inductive Goroutine :=
| MetadataControllerRun
| AutoscalersRunWPA
| AutoscalersRunHPA
| InformerRun (i : InformerId).

(** The calls the start functions make, in the order they make them.  A
    goroutine is recorded where it is spawned; what it does afterwards is not
    followed. *)
Inductive Action :=
| ActNewMetadataController
| ActNewDatadogClient (err : option error)
| ActNewAutoscalersController (err : option error)
| ActEnableHPA
| ActRunControllerLoop
| ActGo (g : Goroutine)
| ActInformer (i : InformerId)      (* the accessor [.Informer()] *)
| ActSyncInformers (informers : gmap string InformerId) (err : option error)
| ActFactoryStart.

#[global] Instance Factory_eq_dec : EqDecision Factory.
Proof. solve_decision. Defined.
#[global] Instance InformerId_eq_dec : EqDecision InformerId.
Proof. solve_decision. Defined.
#[global] Instance Goroutine_eq_dec : EqDecision Goroutine.
Proof. solve_decision. Defined.
#[global] Instance Action_eq_dec : EqDecision Action.
Proof. solve_decision. Defined.

(** The packages the start functions call into, none of them among the
    sources: the configuration, the metadata and autoscalers controllers,
    [SyncInformers] and client-go's informer factory.  [Cluster] is what they
    read and change. *)
Record Env := {
  Cluster : Type;
  DogCl : Type;
  Ctrl : Type;
  MetaCtrl : Type;
  SIF : Type;
  WPAI : Type;
  WPAF : Type;
  KI : Type;
  LE : Type;
  ER : Type;
  SC : Type;
  GetBool : string -> Cluster -> bool;
  NewMetadataController : SIF -> Cluster -> MetaCtrl * Cluster;
  NewDatadogClient : Cluster -> (DogCl * option error) * Cluster;
  NewAutoscalersController :
    KI -> ER -> LE -> DogCl -> Cluster -> (Ctrl * option error) * Cluster;
  EnableHPA : Ctrl -> SIF -> Cluster -> Cluster;
  RunControllerLoop : Ctrl -> SC -> Cluster -> Cluster;
  SyncInformers : gmap string InformerId -> Cluster -> option error * Cluster;
  Factory_Start : SIF -> SC -> Cluster -> Cluster;
}.

Section Start.

Variable E : Env.

(** [ctx.WPAInformerFactory] may be nil. *)
Definition Context : Type :=
  ControllerContext (SIF E) (WPAI E) (option (WPAF E)) (KI E) (LE E) (ER E) (SC E).

Record Proc := {
  cluster : Cluster E;
  actions : list Action;
}.

Definition act (a : Action) : State Proc unit :=
  modify (fun p => {| cluster := cluster p; actions := actions p ++ [a] |}).

(** A call into one of the packages, recorded with what it returned. *)
Definition call {A} (f : Cluster E -> A * Cluster E) (a : A -> Action) : State Proc A :=
  fun p =>
    let (x, c) := f (cluster p) in
    (x, {| cluster := c; actions := actions p ++ [a x] |}).

Definition call_ (f : Cluster E -> Cluster E) (a : Action) : State Proc unit :=
  fun p => (tt, {| cluster := f (cluster p); actions := actions p ++ [a] |}).

Local Open Scope go_scope.

(** [func startMetadataController(ctx ControllerContext) error] *)
Definition startMetadataController (ctx : Context) : State Proc (option error) :=
  metaController <- call (NewMetadataController E (InformerFactory ctx))
                         (fun _ => ActNewMetadataController) ;;
  act (ActGo MetadataControllerRun) ;;
  act (ActInformer nodesInformer) ;;
  act (ActInformer endpointsInformer) ;;
  let informers : gmap string InformerId :=
    <["endpoints" := endpointsInformer]> (<["nodes" := nodesInformer]> ∅) in
  call (SyncInformers E informers) (ActSyncInformers informers).

(** [func startAutoscalersController(ctx ControllerContext) error] *)
Definition startAutoscalersController (ctx : Context) : State Proc (option error) :=
  r <- call (NewDatadogClient E) (fun r => ActNewDatadogClient r.2) ;;
  let dogCl := r.1 in
  match r.2 with
  | Some err => ret (Some err)
  | None =>
      r <- call (NewAutoscalersController E (Client ctx) (EventRecorder ctx)
                   (LeaderElector ctx) dogCl)
                (fun r => ActNewAutoscalersController r.2) ;;
      let autoscalersController := r.1 in
      match r.2 with
      | Some err => ret (Some err)
      | None =>
          let informers : gmap string InformerId := ∅ in
          informers <-
            match WPAInformerFactory ctx with
            | Some _ =>
                act (ActGo AutoscalersRunWPA) ;;
                act (ActInformer wpaInformer) ;;
                ret (<["wpa" := wpaInformer]> informers)
            | None => ret informers
            end ;;
          call_ (EnableHPA E autoscalersController (InformerFactory ctx)) ActEnableHPA ;;
          act (ActGo AutoscalersRunHPA) ;;
          act (ActInformer hpaInformer) ;;
          let informers := <["hpa" := hpaInformer]> informers in
          call_ (RunControllerLoop E autoscalersController (StopCh ctx))
                ActRunControllerLoop ;;
          call (SyncInformers E informers) (ActSyncInformers informers)
      end
  end.

(** [func startServicesInformer(ctx ControllerContext) error].  The [go]
    statement evaluates [....Services().Informer()] before it spawns [Run]. *)
Definition startServicesInformer (ctx : Context) : State Proc (option error) :=
  act (ActInformer servicesInformer) ;;
  act (ActGo (InformerRun servicesInformer)) ;;
  act (ActInformer servicesInformer) ;;
  let informers : gmap string InformerId := <["services" := servicesInformer]> ∅ in
  call (SyncInformers E informers) (ActSyncInformers informers).

(** [func startEndpointsInformer(ctx ControllerContext) error] *)
Definition startEndpointsInformer (ctx : Context) : State Proc (option error) :=
  act (ActInformer endpointsInformer) ;;
  act (ActGo (InformerRun endpointsInformer)) ;;
  act (ActInformer endpointsInformer) ;;
  let informers : gmap string InformerId := <["endpoints" := endpointsInformer]> ∅ in
  call (SyncInformers E informers) (ActSyncInformers informers).

Definition funcs : Type :=
  controllerFuncs Proc (SIF E) (WPAI E) (option (WPAF E)) (KI E) (LE E) (ER E) (SC E).

(** A predicate of the catalog: [config.Datadog.GetBool(key)]. *)
Definition config_flag (key : string) (p : Proc) : bool * Proc :=
  (GetBool E key (cluster p), p).

(** [var controllerCatalog = map[string]controllerFuncs{...}] *)
Definition controllerCatalog : gmap string funcs :=
  <["metadata" := {| enabled := config_flag "kubernetes_collect_metadata_tags";
                     start := startMetadataController |}]>
  (<["autoscalers" := {| enabled := config_flag "external_metrics_provider.enabled";
                         start := startAutoscalersController |}]>
  (<["services" := {| enabled := config_flag "cluster_checks.enabled";
                      start := startServicesInformer |}]>
  (<["endpoints" := {| enabled := config_flag "cluster_checks.enabled";
                       start := startEndpointsInformer |}]> ∅))).

(** The configuration key behind each controller of the catalog. *)
Definition catalog_key (name : string) : option string :=
  if decide (name = "metadata") then Some "kubernetes_collect_metadata_tags"
  else if decide (name = "autoscalers") then Some "external_metrics_provider.enabled"
  else if decide (name = "services") then Some "cluster_checks.enabled"
  else if decide (name = "endpoints") then Some "cluster_checks.enabled"
  else None.

(** [ctx.InformerFactory.Start(ctx.StopCh)] on the process. *)
Definition InformerFactory_Start (f : SIF E) (stop : SC E) (p : Proc) : Proc :=
  {| cluster := Factory_Start E f stop (cluster p);
     actions := actions p ++ [ActFactoryStart] |}.

(** [StartControllers] of this catalog, for one order of [range]. *)
Definition StartControllers (order : list (string * funcs)) (ctx : Context)
    : State (Run Proc) (option error) :=
  Orchestrator.StartControllers InformerFactory_Start order ctx.

(** The process a run leaves behind when it starts in cluster state [c]. *)
Definition run_process (order : list (string * funcs)) (ctx : Context)
    (c : Cluster E) : Proc :=
  world (exec (StartControllers order ctx) (init {| cluster := c; actions := [] |})).

(** The orchestrator's events of that run. *)
Definition run_events (order : list (string * funcs)) (ctx : Context)
    (c : Cluster E) : list Event :=
  run_trace InformerFactory_Start order ctx {| cluster := c; actions := [] |}.

(** None of the packages changes a flag of the configuration. *)
Definition keeps_config (f : Cluster E -> Cluster E) : Prop :=
  forall key c, GetBool E key (f c) = GetBool E key c.

Definition config_untouched : Prop :=
  (forall f, keeps_config (fun c => (NewMetadataController E f c).2))
  /\ keeps_config (fun c => (NewDatadogClient E c).2)
  /\ (forall k r l d, keeps_config (fun c => (NewAutoscalersController E k r l d c).2))
  /\ (forall a f, keeps_config (EnableHPA E a f))
  /\ (forall a s, keeps_config (RunControllerLoop E a s))
  /\ (forall m, keeps_config (fun c => (SyncInformers E m c).2)).

End Start.

Arguments cluster {_} _.
Arguments actions {_} _.

(** What a start function does to the process: it appends actions, none of
    them the start of the factory, and leaves the configuration alone when
    the packages it calls do. *)
Definition well_behaved (E : Env)
    (f : Context E -> State (Proc E) (option error)) : Prop :=
  forall ctx p,
    exists evs,
      actions (f ctx p).2 = (actions p ++ evs)%list
      /\ (ActFactoryStart ∉ evs)
      /\ (config_untouched E ->
          forall key, GetBool E key (cluster (f ctx p).2) = GetBool E key (cluster p)).

(** An environment for examples: the cluster state is the configuration; the
    Datadog client cannot be built when [datadog_client_fails] is set, and a
    wait fails when it includes the informer named wpa. *)
Definition example_env (datadog_client_fails : bool) : Env :=
  {| Cluster := gmap string bool;
     DogCl := unit; Ctrl := unit; MetaCtrl := unit; SIF := unit; WPAI := unit;
     WPAF := unit; KI := unit; LE := unit; ER := unit; SC := unit;
     GetBool := fun key c => default false (c !! key);
     NewMetadataController := fun _ c => (tt, c);
     NewDatadogClient := fun c =>
       ((tt, if datadog_client_fails then Some "missing API key" else None), c);
     NewAutoscalersController := fun _ _ _ _ c => ((tt, None), c);
     EnableHPA := fun _ _ c => c;
     RunControllerLoop := fun _ _ c => c;
     SyncInformers := fun m c =>
       (if decide (is_Some (m !! "wpa")) then Some "timed out: wpa" else None, c);
     Factory_Start := fun _ _ c => c |}.

Definition example_context (wpa : bool) : Context (example_env false) :=
  {| InformerFactory := tt; WPAClient := tt;
     WPAInformerFactory := if wpa then Some tt else None;
     Client := tt; LeaderElector := tt; EventRecorder := tt; StopCh := tt |}.

Definition example_config : gmap string bool :=
  <["cluster_checks.enabled" := true]>
    (<["kubernetes_collect_metadata_tags" := false]> ∅).

(** A configuration with the metadata controller and the cluster checks on. *)
Definition example_config_on : gmap string bool :=
  <["cluster_checks.enabled" := true]>
    (<["kubernetes_collect_metadata_tags" := true]> ∅).

(** One order in which [range] may visit the catalog. *)
Definition example_range : list (string * funcs (example_env false)) :=
  [("services", {| enabled := config_flag (example_env false) "cluster_checks.enabled";
                   start := startServicesInformer (example_env false) |});
   ("metadata", {| enabled := config_flag (example_env false) "kubernetes_collect_metadata_tags";
                   start := startMetadataController (example_env false) |});
   ("endpoints", {| enabled := config_flag (example_env false) "cluster_checks.enabled";
                    start := startEndpointsInformer (example_env false) |});
   ("autoscalers", {| enabled := config_flag (example_env false) "external_metrics_provider.enabled";
                      start := startAutoscalersController (example_env false) |})].

(** Another one, which reaches the endpoints informer before the metadata
    controller. *)
Definition example_endpoints_first : list (string * funcs (example_env false)) :=
  [("endpoints", {| enabled := config_flag (example_env false) "cluster_checks.enabled";
                    start := startEndpointsInformer (example_env false) |});
   ("metadata", {| enabled := config_flag (example_env false) "kubernetes_collect_metadata_tags";
                   start := startMetadataController (example_env false) |});
   ("services", {| enabled := config_flag (example_env false) "cluster_checks.enabled";
                   start := startServicesInformer (example_env false) |});
   ("autoscalers", {| enabled := config_flag (example_env false) "external_metrics_provider.enabled";
                      start := startAutoscalersController (example_env false) |})].

End Controllers.

(** * Facts about the orchestrator *)

Module OrchestratorFacts.
Import Orchestrator.

Local Open Scope list_scope.

Example example_run :
  run_trace example_factory_Start example_order example_ctx []
  = [CallEnabled "services" false; LogInfof "services";
     CallEnabled "metadata" true; CallStart "metadata" (Some "timed out");
     LogErrorf "metadata" "timed out";
     CallEnabled "endpoints" true; CallStart "endpoints" None;
     FactoryStart].
Proof. reflexivity. Qed.

Lemma example_range_order : range_order example_catalog example_order.
Proof.
  unfold range_order, example_catalog, example_order.
  rewrite !map_to_list_insert, map_to_list_empty by (by vm_compute).
  apply Permutation_swap.
Qed.

Section Facts.

Context {World SIF WPA WPAF KI LE ER SC : Type}.
Variable factory_Start : SIF -> SC -> World -> World.

Local Abbreviation funcs := (controllerFuncs World SIF WPA WPAF KI LE ER SC).
Local Abbreviation context := (ControllerContext SIF WPA WPAF KI LE ER SC).

Implicit Types (order : list (string * funcs)) (catalog : gmap string funcs).
Implicit Types (ctx : context) (r : Run World) (w : World).
Implicit Types (name : string) (evs : list Event).

(** *** What the code emits *)

Lemma range_step_trace ctx name (f : funcs) r :
  exists evs,
    trace (exec (range_step ctx (name, f)) r) = trace r ++ evs
    /\ entry_events name evs.
Proof.
  unfold exec, range_step, bind, call_enabled, call_start, emit, modify, ret.
  destruct (enabled f (world r)) as [[] w1]; cbn.
  - destruct (start f ctx w1) as [[e|] w2]; cbn.
    + exists [CallEnabled name true; CallStart name (Some e); LogErrorf name e].
      split; [by rewrite <- !app_assoc | constructor].
    + exists [CallEnabled name true; CallStart name None].
      split; [by rewrite <- !app_assoc | constructor].
  - exists [CallEnabled name false; LogInfof name].
    split; [by rewrite <- !app_assoc | constructor].
Qed.

Lemma range_loop_trace ctx order r :
  exists evs,
    trace (exec (range_loop ctx order) r) = trace r ++ evs
    /\ loop_events order.*1 evs.
Proof.
  revert r. induction order as [|[name f] rest IH]; intros r.
  - exists []. split; [by rewrite app_nil_r | constructor].
  - destruct (range_step_trace ctx name f r) as (evs1 & E1 & H1).
    destruct (IH (exec (range_step ctx (name, f)) r)) as (evs2 & E2 & H2).
    exists (evs1 ++ evs2). split; [| by constructor].
    rewrite app_assoc, <- E1, <- E2.
    unfold exec. cbn [range_loop]. unfold bind at 1.
    by destruct (range_step ctx (name, f) r).
Qed.

Lemma run_trace_shape order ctx w :
  exists evs,
    run_trace factory_Start order ctx w = evs ++ [FactoryStart]
    /\ loop_events order.*1 evs.
Proof.
  destruct (range_loop_trace ctx order (init w)) as (evs & E & H).
  exists evs. split; [| done].
  unfold run_trace, StartControllers, exec, bind in *.
  destruct (range_loop ctx order (init w)) as [[] r1]. cbn in *.
  by rewrite E.
Qed.

(** *** What follows from the shape of the events *)

Lemma entry_events_name name evs e :
  entry_events name evs -> e ∈ evs -> event_name e = Some name.
Proof.
  intros H He.
  destruct H; repeat (apply elem_of_cons in He as [->|He]; [done |]);
    by apply elem_of_nil in He.
Qed.

Lemma loop_events_name names evs e :
  loop_events names evs -> e ∈ evs -> exists n, n ∈ names /\ event_name e = Some n.
Proof.
  induction 1 as [|name names evs1 rest H1 _ IH]; intros He.
  - by apply elem_of_nil in He.
  - apply elem_of_app in He as [He|He].
    + exists name. split; [left | by eapply entry_events_name].
    + destruct (IH He) as (n & Hn & E). exists n. split; [by right | done].
Qed.

Lemma loop_events_no_dispatch names evs :
  loop_events names evs -> FactoryStart ∉ evs.
Proof.
  intros H He. by destruct (loop_events_name _ _ _ H He) as (n & _ & ?).
Qed.

Lemma entry_events_processed name evs :
  entry_events name evs ->
  exists b, CallEnabled name b ∈ evs
            /\ (b = true -> exists res, CallStart name res ∈ evs).
Proof.
  destruct 1.
  - exists false. split; [by repeat constructor | done].
  - exists true. split; [by repeat constructor |].
    intros _. exists None. by repeat constructor.
  - exists true. split; [by repeat constructor |].
    intros _. exists (Some e). by repeat constructor.
Qed.

Lemma loop_events_processed names evs name :
  loop_events names evs -> name ∈ names ->
  exists b, CallEnabled name b ∈ evs
            /\ (b = true -> exists res, CallStart name res ∈ evs).
Proof.
  induction 1 as [|n names evs1 rest H1 _ IH]; intros Hn.
  - by apply elem_of_nil in Hn.
  - apply elem_of_cons in Hn as [->|Hn].
    + destruct (entry_events_processed _ _ H1) as (b & Hb & Hs).
      exists b. split; [apply elem_of_app; by left |].
      intros E. destruct (Hs E) as [res ?]. exists res.
      apply elem_of_app; by left.
    + destruct (IH Hn) as (b & Hb & Hs).
      exists b. split; [apply elem_of_app; by right |].
      intros E. destruct (Hs E) as [res ?]. exists res.
      apply elem_of_app; by right.
Qed.

Lemma entry_events_skip name evs res :
  entry_events name evs -> CallEnabled name false ∈ evs -> CallStart name res ∉ evs.
Proof.
  destruct 1; intros Hoff Hon.
  - repeat (apply elem_of_cons in Hon as [?|Hon]; [done |]).
    by apply elem_of_nil in Hon.
  - repeat (apply elem_of_cons in Hoff as [?|Hoff]; [done |]).
    by apply elem_of_nil in Hoff.
  - repeat (apply elem_of_cons in Hoff as [?|Hoff]; [done |]).
    by apply elem_of_nil in Hoff.
Qed.

Lemma loop_events_skip names evs name res :
  NoDup names -> loop_events names evs ->
  CallEnabled name false ∈ evs -> CallStart name res ∉ evs.
Proof.
  intros ND H. revert ND.
  induction H as [|n names evs1 rest H1 H2 IH]; intros ND Hoff Hon.
  - by apply elem_of_nil in Hoff.
  - apply NoDup_cons in ND as [Hfresh ND].
    apply elem_of_app in Hoff as [Hoff|Hoff], Hon as [Hon|Hon].
    + pose proof (entry_events_name _ _ _ H1 Hoff) as E. cbn in E.
      injection E as <-. by eapply entry_events_skip.
    + pose proof (entry_events_name _ _ _ H1 Hoff) as E. cbn in E.
      injection E as <-.
      destruct (loop_events_name _ _ _ H2 Hon) as (m & Hm & E).
      cbn in E. by injection E as <-.
    + pose proof (entry_events_name _ _ _ H1 Hon) as E. cbn in E.
      injection E as <-.
      destruct (loop_events_name _ _ _ H2 Hoff) as (m & Hm & E).
      cbn in E. by injection E as <-.
    + by apply IH.
Qed.





(** *** The order of one run against the catalog *)

Lemma range_order_NoDup catalog order :
  range_order catalog order -> NoDup order.*1.
Proof.
  intros H. unfold range_order in H. rewrite H.
  apply NoDup_fst_map_to_list.
Qed.

Lemma range_order_elem catalog order name (f : funcs) :
  range_order catalog order -> catalog !! name = Some f -> name ∈ order.*1.
Proof.
  intros H Hf. unfold range_order in H. rewrite H.
  apply list_elem_of_fmap. exists (name, f). split; [done |].
  by apply elem_of_map_to_list.
Qed.

(** *** The run, world by world *)

Lemma range_step_run ctx name (f : funcs) r :
  exists evs,
    entry_run ctx name f (world r) evs (world (exec (range_step ctx (name, f)) r))
    /\ trace (exec (range_step ctx (name, f)) r) = trace r ++ evs.
Proof.
  unfold exec, range_step, bind, call_enabled, call_start, emit, modify, ret.
  destruct (enabled f (world r)) as [[] w1] eqn:Hen; cbn.
  - destruct (start f ctx w1) as [[e|] w2] eqn:Hst; cbn.
    + eexists. split; [by eapply entry_run_failed | by rewrite <- !app_assoc].
    + eexists. split; [by eapply entry_run_started | by rewrite <- !app_assoc].
  - eexists. split; [by eapply entry_run_disabled | by rewrite <- !app_assoc].
Qed.

Lemma range_loop_run ctx order r :
  exists evs,
    loop_run ctx order (world r) evs (world (exec (range_loop ctx order) r))
    /\ trace (exec (range_loop ctx order) r) = trace r ++ evs.
Proof.
  revert r. induction order as [|[name f] rest IH]; intros r.
  - exists []. split; [constructor | by rewrite app_nil_r].
  - destruct (range_step_run ctx name f r) as (evs1 & H1 & E1).
    destruct (IH (exec (range_step ctx (name, f)) r)) as (evs2 & H2 & E2).
    assert (Hcons : exec (range_loop ctx ((name, f) :: rest)) r
                    = exec (range_loop ctx rest) (exec (range_step ctx (name, f)) r)).
    { unfold exec. cbn [range_loop]. unfold bind at 1.
      by destruct (range_step ctx (name, f) r). }
    rewrite Hcons. exists (evs1 ++ evs2). split.
    + by econstructor.
    + by rewrite E2, E1, app_assoc.
Qed.

(** The whole of [StartControllers]: the loop, then the factory is started
    on the world the loop left. *)
Lemma StartControllers_run order ctx w :
  exists pre w',
    loop_run ctx order w pre w'
    /\ run_trace factory_Start order ctx w = pre ++ [FactoryStart]
    /\ run_world factory_Start order ctx w
       = factory_Start (InformerFactory ctx) (StopCh ctx) w'.
Proof.
  destruct (range_loop_run ctx order (init w)) as (evs & H & E).
  exists evs, (world (exec (range_loop ctx order) (init w))).
  split; [done |].
  unfold run_trace, run_world, StartControllers, exec, bind, call_factory_Start, ret in *.
  destruct (range_loop ctx order (init w)) as [[] r1]. cbn in *.
  by rewrite E.
Qed.

Lemma entry_run_events ctx name (f : funcs) w evs w' :
  entry_run ctx name f w evs w' -> entry_events name evs.
Proof. destruct 1; constructor. Qed.

Lemma loop_run_events ctx order w evs w' :
  loop_run ctx order w evs w' -> loop_events order.*1 evs.
Proof.
  induction 1; [constructor |]. cbn. constructor; [| done].
  by eapply entry_run_events.
Qed.

Lemma loop_run_split ctx before name (f : funcs) after w evs w' :
  loop_run ctx (before ++ (name, f) :: after) w evs w' ->
  exists wa wb evs_b evs_n evs_a,
    loop_run ctx before w evs_b wa
    /\ entry_run ctx name f wa evs_n wb
    /\ loop_run ctx after wb evs_a w'
    /\ evs = evs_b ++ evs_n ++ evs_a.
Proof.
  revert w evs. induction before as [|[n g] before IH]; intros w evs H; cbn in H.
  - inversion H; subst. eexists w, _, [], _, _.
    split; [constructor |]. by repeat split.
  - inversion H; subst.
    match goal with Hl : loop_run _ (before ++ _) _ _ _ |- _ =>
      destruct (IH _ _ Hl) as (wa & wb & evs_b & evs_n & evs_a & Hb & Hn & Ha & ->) end.
    eexists wa, wb, _, evs_n, evs_a.
    split; [by econstructor |]. split; [done |]. split; [done |].
    by rewrite <- app_assoc.
Qed.

Lemma loop_run_invariant (I : World -> Prop) ctx order w evs w' :
  (forall n (f : funcs), (n, f) ∈ order ->
     forall w, I w -> I (enabled f w).2 /\ forall ctx, I (start f ctx w).2) ->
  loop_run ctx order w evs w' -> I w -> I w'.
Proof.
  intros Hst H. induction H as [|name f rest w evs w1 evs' w2 H1 _ IH]; [done |].
  intros HI. apply IH; [intros n g Hin; apply (Hst n g); by right |].
  destruct (Hst name f) with (w := w) as [HI1 _]; [by left | done |].
  destruct H1 as [w w1 Hen|w w1 w2' Hen Hs|w w1 w2' e Hen Hs];
    rewrite Hen in HI1; cbn in HI1; [done | |];
    (destruct (Hst name f) with (w := w1) as [_ HI2]; [by left | done |]);
    specialize (HI2 ctx); by rewrite Hs in HI2.
Qed.

Lemma visited order ctx w name (f : funcs) :
  NoDup order.*1 -> (name, f) ∈ order ->
  visited_once factory_Start order ctx w name f.
Proof.
  intros ND Hin.
  apply list_elem_of_split in Hin as (before & after & ->).
  rewrite fmap_app, fmap_cons in ND. cbn in ND.
  apply NoDup_app in ND as (_ & Hba & ND).
  apply NoDup_cons in ND as [Ha _].
  destruct (StartControllers_run (before ++ (name, f) :: after) ctx w)
    as (pre & w' & Hrun & Htr & Hw).
  destruct (loop_run_split _ _ _ _ _ _ _ _ Hrun)
    as (wa & wb & evs_b & evs_n & evs_a & Hb & Hn & Hafter & ->).
  exists before, after, wa, wb, w', evs_b, evs_n, evs_a.
  repeat split; try done.
  intros Hb'. apply (Hba name Hb'). by left.
Qed.

Lemma range_order_entry catalog order name (f : funcs) :
  range_order catalog order -> (name, f) ∈ order <-> catalog !! name = Some f.
Proof.
  intros H. unfold range_order in H. rewrite H. apply elem_of_map_to_list.
Qed.

(** *** The properties of [StartControllers] *)

(** C1, amended.  In every run of [StartControllers], over any catalog and
    in any order [range] may pick, [ctx.InformerFactory.Start] is applied
    once, as the last step, to the world the loop has left; and by then every
    catalog entry has been processed at its turn: its predicate applied to
    the world as it then was and, where it answered true, its start routine
    applied and run to its return.  What a start routine itself sets running
    is not part of this. *)
Theorem factory_start_after_every_entry catalog order ctx w :
  range_order catalog order ->
  (exists pre w',
     loop_run ctx order w pre w'
     /\ run_trace factory_Start order ctx w = pre ++ [FactoryStart]
     /\ (FactoryStart ∉ pre)
     /\ run_world factory_Start order ctx w
        = factory_Start (InformerFactory ctx) (StopCh ctx) w')
  /\ forall name (f : funcs), catalog !! name = Some f ->
       visited_once factory_Start order ctx w name f.
Proof.
  intros Hord. split.
  - destruct (StartControllers_run order ctx w) as (pre & w' & Hrun & Htr & Hw).
    exists pre, w'. repeat split; try done.
    eapply loop_events_no_dispatch, loop_run_events, Hrun.
  - intros name f Hf. apply visited; [by eapply range_order_NoDup |].
    by apply (range_order_entry catalog).
Qed.

(** C2 (a start failure is contained).  If in a run of [StartControllers] the
    start routine of one controller returns an error, every other entry of
    the catalog is still processed at its turn: its predicate is applied to
    the world as it then is and, where it answers true, its start routine is
    applied, the run going on from the world it returns.  And the informer
    factory is still started, on the world the loop leaves. *)
Theorem start_failure_is_contained catalog order ctx w failing err :
  range_order catalog order ->
  CallStart failing (Some err) ∈ run_trace factory_Start order ctx w ->
  (forall name (f : funcs), catalog !! name = Some f -> name ≠ failing ->
     visited_once factory_Start order ctx w name f)
  /\ exists pre w',
       loop_run ctx order w pre w'
       /\ run_trace factory_Start order ctx w = pre ++ [FactoryStart]
       /\ run_world factory_Start order ctx w
          = factory_Start (InformerFactory ctx) (StopCh ctx) w'.
Proof.
  intros Hord _. split.
  - intros name f Hf _. apply visited; [by eapply range_order_NoDup |].
    by apply (range_order_entry catalog).
  - apply StartControllers_run.
Qed.

(** C3 (a disabled entry is skipped).  If the predicate of a catalog entry
    answers false when [StartControllers] evaluates it, the start routine of
    that entry is not called in the run, whatever it would return. *)
Theorem disabled_entry_never_started catalog order ctx w name :
  range_order catalog order ->
  CallEnabled name false ∈ run_trace factory_Start order ctx w ->
  forall res, CallStart name res ∉ run_trace factory_Start order ctx w.
Proof.
  intros Hord Hoff res Hon.
  destruct (run_trace_shape order ctx w) as (pre & E & Hloop).
  rewrite E in Hoff, Hon.
  apply elem_of_app in Hoff as [Hoff|Hoff];
    [| apply list_elem_of_singleton in Hoff; discriminate].
  apply elem_of_app in Hon as [Hon|Hon];
    [| apply list_elem_of_singleton in Hon; discriminate].
  eapply loop_events_skip; [| done | done | done].
  by eapply range_order_NoDup.
Qed.


(** C10 ([StartControllers] returns nil).  For every catalog, order, context
    and state it is started in, [StartControllers] returns a nil error, also
    when start routines fail. *)
Theorem StartControllers_returns_nil order ctx r :
  eval (StartControllers factory_Start order ctx) r = None.
Proof.
  unfold eval, StartControllers, bind, call_factory_Start, ret.
  by destruct (range_loop ctx order r) as [[] r1].
Qed.

(** *** Further properties of the loop *)

Lemma in_run_pre evs (e : Event) :
  e ≠ FactoryStart -> e ∈ evs ++ [FactoryStart] <-> e ∈ evs.
Proof.
  intros Hne. rewrite elem_of_app, list_elem_of_singleton.
  split; [intros [?|?]; done | by left].
Qed.

Lemma range_order_lookup catalog order name :
  range_order catalog order -> name ∈ order.*1 -> is_Some (catalog !! name).
Proof.
  intros H Hn. unfold range_order in H. rewrite H in Hn.
  apply list_elem_of_fmap in Hn as ([n f] & -> & Hin).
  apply elem_of_map_to_list in Hin. by exists f.
Qed.

Lemma entry_events_cases name evs (e : Event) :
  entry_events name evs -> e ∈ evs ->
  (e = CallEnabled name false /\ evs = [CallEnabled name false; LogInfof name])
  \/ (e = LogInfof name /\ evs = [CallEnabled name false; LogInfof name])
  \/ (e = CallEnabled name true
      /\ exists res, CallStart name res ∈ evs
                     /\ forall err, res = Some err <-> LogErrorf name err ∈ evs)
  \/ (exists res, e = CallStart name res /\ CallEnabled name true ∈ evs
                  /\ forall err, res = Some err <-> LogErrorf name err ∈ evs)
  \/ (exists err, e = LogErrorf name err /\ CallStart name (Some err) ∈ evs).
Proof.
  intros H He. destruct H.
  - apply elem_of_cons in He as [->|He]; [by left |].
    apply list_elem_of_singleton in He as ->. by right; left.
  - apply elem_of_cons in He as [->|He].
    + right; right; left. split; [done |]. exists None.
      split; [by repeat constructor |]. intros err. split; [done |].
      intros Hl. repeat (apply elem_of_cons in Hl as [?|Hl]; [done |]).
      by apply elem_of_nil in Hl.
    + apply list_elem_of_singleton in He as ->.
      right; right; right; left. exists None. split; [done |].
      split; [by repeat constructor |]. intros err. split; [done |].
      intros Hl. repeat (apply elem_of_cons in Hl as [?|Hl]; [done |]).
      by apply elem_of_nil in Hl.
  - assert (Hlog : forall err, Some e0 = Some err
               <-> LogErrorf name err
                     ∈ [CallEnabled name true; CallStart name (Some e0); LogErrorf name e0]).
    { intros err. split.
      - intros [= <-]. by repeat constructor.
      - intros Hl. repeat (apply elem_of_cons in Hl as [Hl|Hl]; [by simplify_eq |]).
        by apply elem_of_nil in Hl. }
    apply elem_of_cons in He as [->|He].
    + right; right; left. split; [done |]. exists (Some e0).
      split; [by repeat constructor | done].
    + apply elem_of_cons in He as [->|He].
      * right; right; right; left. exists (Some e0). split; [done |].
        split; [by repeat constructor | done].
      * apply list_elem_of_singleton in He as ->.
        right; right; right; right. exists e0. split; [done |].
        by repeat constructor.
Qed.

(** Whatever holds inside the events of one entry holds inside the loop's. *)
Lemma loop_events_entry names evs (e : Event) :
  loop_events names evs -> e ∈ evs ->
  exists name own, entry_events name own /\ e ∈ own /\ own ⊆ evs.
Proof.
  induction 1 as [|n names evs1 rest H1 _ IH]; intros He.
  - by apply elem_of_nil in He.
  - apply elem_of_app in He as [He|He].
    + exists n, evs1. split; [done |]. split; [done |].
      intros x Hx. apply elem_of_app. by left.
    + destruct (IH He) as (name & own & Ho & Hin & Hsub).
      exists name, own. split; [done |]. split; [done |].
      intros x Hx. apply elem_of_app. right. by apply Hsub.
Qed.

Lemma loop_events_start_enabled names evs name res :
  loop_events names evs -> CallStart name res ∈ evs -> CallEnabled name true ∈ evs.
Proof.
  intros H He.
  destruct (loop_events_entry _ _ _ H He) as (n & own & Ho & Hin & Hsub).
  destruct (entry_events_cases _ _ _ Ho Hin)
    as [[? _]|[[? _]|[[? _]|[(r & E & Hen & _)|(err & ? & _)]]]]; try done.
  injection E as <- <-. by apply Hsub.
Qed.

Lemma loop_events_enabled_start names evs name :
  loop_events names evs -> CallEnabled name true ∈ evs ->
  exists res, CallStart name res ∈ evs.
Proof.
  intros H He.
  destruct (loop_events_entry _ _ _ H He) as (n & own & Ho & Hin & Hsub).
  destruct (entry_events_cases _ _ _ Ho Hin)
    as [[? _]|[[? _]|[[E (r & Hr & _)]|[(r & ? & _)|(err & ? & _)]]]]; try done.
  injection E as <-. exists r. by apply Hsub.
Qed.

Lemma loop_events_error_logged names evs name err :
  loop_events names evs -> CallStart name (Some err) ∈ evs -> LogErrorf name err ∈ evs.
Proof.
  intros H He.
  destruct (loop_events_entry _ _ _ H He) as (n & own & Ho & Hin & Hsub).
  destruct (entry_events_cases _ _ _ Ho Hin)
    as [[? _]|[[? _]|[[? _]|[(r & E & _ & Hl)|(e' & ? & _)]]]]; try done.
  injection E as <- <-. by apply Hsub, Hl.
Qed.

Lemma loop_events_log_error names evs name err :
  loop_events names evs -> LogErrorf name err ∈ evs -> CallStart name (Some err) ∈ evs.
Proof.
  intros H He.
  destruct (loop_events_entry _ _ _ H He) as (n & own & Ho & Hin & Hsub).
  destruct (entry_events_cases _ _ _ Ho Hin)
    as [[? _]|[[? _]|[[? _]|[(r & ? & _)|(e' & E & Hs)]]]]; try done.
  injection E as <- <-. by apply Hsub.
Qed.

Lemma loop_events_skip_logged names evs name :
  loop_events names evs -> CallEnabled name false ∈ evs <-> LogInfof name ∈ evs.
Proof.
  intros H. split; intros He;
    destruct (loop_events_entry _ _ _ H He) as (n & own & Ho & Hin & Hsub);
    destruct (entry_events_cases _ _ _ Ho Hin)
      as [[E ->]|[[E ->]|[[? _]|[(r & ? & _)|(e' & ? & _)]]]]; try done;
    injection E as <-; apply Hsub; by repeat constructor.
Qed.

Lemma loop_events_enabled_order names evs :
  loop_events names evs -> enabled_order evs = names.
Proof.
  induction 1 as [|n names evs1 rest H1 _ IH]; [done |].
  unfold enabled_order in *. rewrite omap_app, IH.
  by destruct H1.
Qed.

Lemma start_calls_app name evs1 evs2 :
  start_calls name (evs1 ++ evs2)
  = (start_calls name evs1 + start_calls name evs2)%nat.
Proof.
  unfold start_calls. by rewrite filter_app, length_app.
Qed.

Lemma start_calls_absent name evs :
  (forall res, CallStart name res ∉ evs) -> start_calls name evs = 0%nat.
Proof.
  unfold start_calls. induction evs as [|e evs IH]; intros H; [done |].
  rewrite filter_cons. destruct (decide _) as [Hc|_].
  - destruct e; cbn in Hc; try done.
    apply bool_decide_eq_true in Hc as ->.
    destruct (H result). by left.
  - apply IH. intros res Hres. apply (H res). by right.
Qed.

Lemma start_calls_hit name res evs :
  start_calls name (CallStart name res :: evs) = S (start_calls name evs).
Proof.
  unfold start_calls. rewrite filter_cons.
  rewrite decide_True; [done |]. cbn. by apply bool_decide_eq_true_2.
Qed.

Lemma start_calls_skip name (e : Event) evs :
  (forall res, e ≠ CallStart name res) ->
  start_calls name (e :: evs) = start_calls name evs.
Proof.
  intros H. unfold start_calls. rewrite filter_cons.
  rewrite decide_False; [done |].
  destruct e; cbn; try done.
  intros Hc. apply bool_decide_eq_true in Hc as ->. by destruct (H result).
Qed.

Lemma loop_events_start_calls names evs name :
  NoDup names -> loop_events names evs ->
  start_calls name evs = if decide (CallEnabled name true ∈ evs) then 1%nat else 0%nat.
Proof.
  intros ND H.
  destruct (decide (CallEnabled name true ∈ evs)) as [Hon|Hoff].
  - revert ND Hon.
    induction H as [|n names evs1 rest H1 H2 IH]; intros ND Hon.
    + by apply elem_of_nil in Hon.
    + apply NoDup_cons in ND as [Hfresh ND].
      rewrite start_calls_app.
      apply elem_of_app in Hon as [Hon|Hon].
      * pose proof (entry_events_name _ _ _ H1 Hon) as E. cbn in E.
        injection E as <-.
        rewrite (start_calls_absent _ rest).
        { destruct H1.
          - repeat (apply elem_of_cons in Hon as [?|Hon]; [done |]).
            by apply elem_of_nil in Hon.
          - by rewrite start_calls_skip, start_calls_hit by done.
          - rewrite start_calls_skip, start_calls_hit by done.
            by rewrite start_calls_skip by done. }
        intros res Hres.
        destruct (loop_events_name _ _ _ H2 Hres) as (m & Hm & E).
        cbn in E. by injection E as <-.
      * rewrite (IH ND Hon), (start_calls_absent _ evs1); [done |].
        intros res Hres.
        pose proof (entry_events_name _ _ _ H1 Hres) as E. cbn in E.
        injection E as <-.
        destruct (loop_events_name _ _ _ H2 Hon) as (m & Hm & E).
        cbn in E. by injection E as <-.
  - apply start_calls_absent. intros res Hres.
    by apply Hoff, (loop_events_start_enabled _ _ _ res H).
Qed.

(** X1.  A start routine is called only for a catalog entry, and only after
    the predicate of that entry has answered true in the same run. *)
Theorem start_requires_enabled catalog order ctx w name res :
  range_order catalog order ->
  CallStart name res ∈ run_trace factory_Start order ctx w ->
  CallEnabled name true ∈ run_trace factory_Start order ctx w
  /\ is_Some (catalog !! name).
Proof.
  intros Hord Hs.
  destruct (run_trace_shape order ctx w) as (pre & E & Hloop).
  rewrite E in *. rewrite in_run_pre in Hs by done.
  split.
  - rewrite in_run_pre by done. by eapply loop_events_start_enabled.
  - apply (range_order_lookup catalog order); [done |].
    destruct (loop_events_name _ _ _ Hloop Hs) as (n & Hn & En).
    cbn in En. by injection En as <-.
Qed.

(** In the log of one run, the start routine of an entry appears once if
    its predicate answered true and not at all otherwise. *)
Lemma start_called_at_most_once catalog order ctx w name :
  range_order catalog order ->
  start_calls name (run_trace factory_Start order ctx w)
  = if decide (CallEnabled name true ∈ run_trace factory_Start order ctx w)
    then 1%nat else 0%nat.
Proof.
  intros Hord.
  destruct (run_trace_shape order ctx w) as (pre & E & Hloop).
  rewrite E, start_calls_app.
  rewrite (loop_events_start_calls _ _ name (range_order_NoDup _ _ Hord) Hloop).
  rewrite (start_calls_absent name [FactoryStart]).
  2:{ intros res Hres. by apply list_elem_of_singleton in Hres. }
  rewrite Nat.add_0_r.
  destruct (decide (CallEnabled name true ∈ pre)) as [H|H];
    destruct (decide (CallEnabled name true ∈ pre ++ [FactoryStart])) as [H'|H'];
    try done.
  - destruct H'. by rewrite in_run_pre.
  - destruct H. by rewrite in_run_pre in H'.
Qed.

(** X3.  Every start error is reported: an error line for a controller is
    logged exactly when its start routine returned that error, and the
    "is disabled" line exactly when its predicate answered false.  This holds
    for every order, without any assumption on the catalog. *)
Theorem failures_and_skips_are_logged order ctx w name :
  (forall err,
     CallStart name (Some err) ∈ run_trace factory_Start order ctx w
     <-> LogErrorf name err ∈ run_trace factory_Start order ctx w)
  /\ (CallEnabled name false ∈ run_trace factory_Start order ctx w
      <-> LogInfof name ∈ run_trace factory_Start order ctx w).
Proof.
  destruct (run_trace_shape order ctx w) as (pre & -> & Hloop).
  split; [intros err |]; rewrite !in_run_pre by done.
  - split; [by eapply loop_events_error_logged | by eapply loop_events_log_error].
  - by eapply loop_events_skip_logged.
Qed.

(** The log lists the evaluations in the order [range] visits the catalog,
    one per entry. *)
Lemma predicates_evaluated_in_range_order order ctx w :
  enabled_order (run_trace factory_Start order ctx w) = order.*1.
Proof.
  destruct (run_trace_shape order ctx w) as (pre & -> & Hloop).
  unfold enabled_order. rewrite omap_app. cbn. rewrite app_nil_r.
  by eapply loop_events_enabled_order.
Qed.

(** *** Predicates that read flags nobody changes *)

Lemma range_step_stable (I : World -> Prop) (flag : string -> bool)
    ctx name (f : funcs) r :
  (forall w, I w ->
     (enabled f w).1 = flag name /\ I (enabled f w).2
     /\ forall ctx, I (start f ctx w).2) ->
  I (world r) ->
  I (world (exec (range_step ctx (name, f)) r))
  /\ exists evs,
       trace (exec (range_step ctx (name, f)) r) = trace r ++ evs
       /\ entry_events name evs
       /\ CallEnabled name (flag name) ∈ evs.
Proof.
  intros Hst HI. destruct (Hst _ HI) as (Hflag & HI1 & _).
  revert Hflag HI1.
  unfold exec, range_step, bind, call_enabled, call_start, emit, modify, ret.
  destruct (enabled f (world r)) as [[] w1]; cbn; intros <- HI1.
  - destruct (Hst _ HI1) as (_ & _ & Hstart). specialize (Hstart ctx).
    destruct (start f ctx w1) as [[e|] w2]; cbn in *.
    + split; [done |].
      exists [CallEnabled name true; CallStart name (Some e); LogErrorf name e].
      split; [by rewrite <- !app_assoc |]. split; [constructor | by left].
    + split; [done |].
      exists [CallEnabled name true; CallStart name None].
      split; [by rewrite <- !app_assoc |]. split; [constructor | by left].
  - split; [done |].
    exists [CallEnabled name false; LogInfof name].
    split; [by rewrite <- !app_assoc |]. split; [constructor | by left].
Qed.

Lemma range_loop_stable (I : World -> Prop) (flag : string -> bool) ctx order r :
  (forall n (f : funcs), (n, f) ∈ order ->
     forall w, I w ->
       (enabled f w).1 = flag n /\ I (enabled f w).2
       /\ forall ctx, I (start f ctx w).2) ->
  I (world r) ->
  exists evs,
    trace (exec (range_loop ctx order) r) = trace r ++ evs
    /\ loop_events order.*1 evs
    /\ forall n, n ∈ order.*1 -> CallEnabled n (flag n) ∈ evs.
Proof.
  revert r. induction order as [|[name f] rest IH]; intros r Hst HI.
  - exists []. split; [by rewrite app_nil_r |]. split; [constructor |].
    intros n Hn. by apply elem_of_nil in Hn.
  - destruct (range_step_stable I flag ctx name f r) as (HI1 & evs1 & E1 & H1 & Hf1);
      [apply Hst; by left | done |].
    destruct (IH (exec (range_step ctx (name, f)) r)) as (evs2 & E2 & H2 & Hf2);
      [intros n g Hin; apply Hst; by right | done |].
    exists (evs1 ++ evs2). split; [| split; [by constructor |]].
    + rewrite app_assoc, <- E1, <- E2.
      unfold exec. cbn [range_loop]. unfold bind at 1.
      by destruct (range_step ctx (name, f) r).
    + intros n Hn. apply elem_of_app. cbn in Hn.
      apply elem_of_cons in Hn as [->|Hn]; [by left | right; by apply Hf2].
Qed.

Lemma range_loop_invariant (I : World -> Prop) ctx order r :
  (forall n (f : funcs), (n, f) ∈ order ->
     forall w, I w -> I (enabled f w).2 /\ forall ctx, I (start f ctx w).2) ->
  I (world r) ->
  I (world (exec (range_loop ctx order) r)).
Proof.
  revert r. induction order as [|[name f] rest IH]; intros r Hst HI; [done |].
  unfold exec. cbn [range_loop]. unfold bind at 1.
  destruct (range_step ctx (name, f) r) as [[] r1] eqn:E1.
  apply IH; [intros n g Hin; apply (Hst n g); by right |].
  replace r1 with (exec (range_step ctx (name, f)) r) by (unfold exec; by rewrite E1).
  destruct (Hst name f) with (w := world r) as [HI1 _]; [by left | done |].
  revert HI1.
  unfold exec, range_step, bind, call_enabled, call_start, emit, modify, ret.
  destruct (enabled f (world r)) as [[] w1]; cbn; intros HI1; [| done].
  destruct (Hst name f) with (w := w1) as [_ Hstart]; [by left | done |].
  specialize (Hstart ctx).
  by destruct (start f ctx w1) as [[e|] w2].
Qed.

(** With such flags, the log shows a start for exactly the entries whose flag
    is set. *)
Lemma flagged_start_events (I : World -> Prop) (flag : string -> bool)
    catalog order ctx w name :
  range_order catalog order ->
  stable_flags I flag catalog ->
  I w ->
  (exists res, CallStart name res ∈ run_trace factory_Start order ctx w)
  <-> (is_Some (catalog !! name) /\ flag name = true).
Proof.
  intros Hord Hst HI.
  destruct (range_loop_stable I flag ctx order (init w))
    as (evs & E & Hloop & Hflags); [| done |].
  { intros n f Hin. apply (Hst n f).
    unfold range_order in Hord. rewrite Hord in Hin.
    by apply elem_of_map_to_list in Hin. }
  assert (Htr : run_trace factory_Start order ctx w = evs ++ [FactoryStart]).
  { unfold run_trace, StartControllers, exec, bind in *.
    destruct (range_loop ctx order (init w)) as [[] r1]. cbn in *.
    by rewrite E. }
  rewrite Htr. split.
  - intros [res Hres]. rewrite in_run_pre in Hres by done.
    destruct (loop_events_name _ _ _ Hloop Hres) as (n & Hn & En).
    cbn in En. injection En as <-.
    split; [by eapply range_order_lookup |].
    destruct (flag name) eqn:Hf; [done |].
    pose proof (Hflags name Hn) as Hoff. rewrite Hf in Hoff.
    destruct (loop_events_skip _ _ name res (range_order_NoDup _ _ Hord) Hloop Hoff Hres).
  - intros [[f Hf] Hon].
    pose proof (Hflags name (range_order_elem _ _ _ _ Hord Hf)) as Hen.
    rewrite Hon in Hen.
    destruct (loop_events_enabled_start _ _ _ Hloop Hen) as [res Hres].
    exists res. by rewrite in_run_pre.
Qed.

Lemma stable_flags_order (I : World -> Prop) (flag : string -> bool) catalog order :
  range_order catalog order ->
  stable_flags I flag catalog ->
  forall n (f : funcs), (n, f) ∈ order ->
    forall w, I w -> I (enabled f w).2 /\ forall ctx, I (start f ctx w).2.
Proof.
  intros Hord Hst n f Hin w HI.
  apply (range_order_entry catalog) in Hin; [| done].
  by destruct (Hst n f Hin w HI) as (_ & ? & ?).
Qed.

Lemma really_started_flagged (I : World -> Prop) (flag : string -> bool)
    catalog order ctx w name :
  range_order catalog order ->
  stable_flags I flag catalog ->
  I w ->
  really_started factory_Start order ctx w name
  <-> (is_Some (catalog !! name) /\ flag name = true).
Proof.
  intros Hord Hst HI. split.
  - intros (f & before & after & wa & w1 & wb & res & w' & evs_b & evs_a
            & -> & Hb & Hen & Hs & Ha & Hw).
    assert (Hf : catalog !! name = Some f).
    { apply (range_order_entry catalog _ _ _ Hord).
      apply elem_of_app. right. by left. }
    split; [by eexists |].
    assert (HIa : I wa).
    { eapply (loop_run_invariant I); [| exact Hb | done].
      intros n g Hin. apply (stable_flags_order I flag catalog _ Hord Hst n g).
      apply elem_of_app. by left. }
    destruct (Hst name f Hf wa HIa) as (Hflag & _). by rewrite Hen in Hflag.
  - intros [[f Hf] Hon].
    assert (Hin : (name, f) ∈ order) by (by apply (range_order_entry catalog)).
    apply list_elem_of_split in Hin as (before & after & ->).
    destruct (StartControllers_run (before ++ (name, f) :: after) ctx w)
      as (pre & w' & Hrun & _ & Hw).
    destruct (loop_run_split _ _ _ _ _ _ _ _ Hrun)
      as (wa & wb & evs_b & evs_n & evs_a & Hb & Hn & Ha & _).
    assert (HIa : I wa).
    { eapply (loop_run_invariant I); [| exact Hb | done].
      intros n g Hin. apply (stable_flags_order I flag catalog _ Hord Hst n g).
      apply elem_of_app. by left. }
    destruct (Hst name f Hf wa HIa) as (Hflag & _). rewrite Hon in Hflag.
    destruct Hn as [wa w1 Hen|wa w1 w2 Hen Hs|wa w1 w2 e Hen Hs];
      rewrite Hen in Hflag; cbn in Hflag; [done | |];
      by eexists f, before, after, wa, w1, w2, _, w', evs_b, evs_a.
Qed.

(** X5.  When the predicates answer by flags that neither they nor the start
    routines change, the start routines applied in a run are exactly those of
    the catalog entries whose flag is set in the world the run begins in,
    each applied to the world its own predicate left: which controllers are
    started does not depend on the order in which [range] visits the
    catalog. *)
Theorem started_iff_flag (I : World -> Prop) (flag : string -> bool)
    catalog order ctx w name :
  range_order catalog order ->
  stable_flags I flag catalog ->
  I w ->
  really_started factory_Start order ctx w name
  <-> (is_Some (catalog !! name) /\ flag name = true).
Proof. apply really_started_flagged. Qed.

End Facts.

Lemma example_start :
  CallStart "endpoints" None
    ∈ run_trace example_factory_Start example_order example_ctx [].
Proof. rewrite example_run. by repeat constructor. Qed.

Lemma start_requires_enabled_witness :
  CallEnabled "endpoints" true
    ∈ run_trace example_factory_Start example_order example_ctx []
  /\ is_Some (example_catalog !! "endpoints").
Proof.
  apply (start_requires_enabled example_factory_Start example_catalog
           example_order example_ctx [] "endpoints" None
           example_range_order example_start).
Defined.

Lemma start_called_at_most_once_witness :
  start_calls "metadata"
    (run_trace example_factory_Start example_order example_ctx [])
  = if decide (CallEnabled "metadata" true
                 ∈ run_trace example_factory_Start example_order example_ctx [])
    then 1%nat else 0%nat.
Proof.
  apply (start_called_at_most_once example_factory_Start example_catalog
           example_order example_ctx [] "metadata" example_range_order).
Defined.

Lemma example_stable_flags :
  stable_flags (fun _ : list string => True) example_flag example_catalog.
Proof.
  intros n f Hf w _. unfold example_catalog in Hf.
  repeat (apply lookup_insert_Some in Hf as [[<- <-]|[_ Hf]]; [done |]).
  by rewrite lookup_empty in Hf.
Qed.

Lemma started_iff_flag_witness :
  really_started example_factory_Start example_order example_ctx [] "endpoints"
  <-> (is_Some (example_catalog !! "endpoints") /\ example_flag "endpoints" = true).
Proof.
  apply (started_iff_flag example_factory_Start (fun _ => True) example_flag
           example_catalog example_order example_ctx [] "endpoints"
           example_range_order example_stable_flags I).
Defined.

Lemma factory_start_after_every_entry_witness :
  (exists pre w',
     loop_run example_ctx example_order [] pre w'
     /\ run_trace example_factory_Start example_order example_ctx []
        = pre ++ [FactoryStart]
     /\ (FactoryStart ∉ pre)
     /\ run_world example_factory_Start example_order example_ctx []
        = example_factory_Start (InformerFactory example_ctx) (StopCh example_ctx) w')
  /\ forall name f, example_catalog !! name = Some f ->
       visited_once example_factory_Start example_order example_ctx [] name f.
Proof.
  apply (factory_start_after_every_entry example_factory_Start example_catalog
           example_order example_ctx [] example_range_order).
Defined.

Lemma example_failure :
  CallStart "metadata" (Some "timed out")
    ∈ run_trace example_factory_Start example_order example_ctx [].
Proof. rewrite example_run. by repeat constructor. Qed.

Lemma start_failure_is_contained_witness :
  (forall name f, example_catalog !! name = Some f -> name ≠ "metadata" ->
     visited_once example_factory_Start example_order example_ctx [] name f)
  /\ exists pre w',
       loop_run example_ctx example_order [] pre w'
       /\ run_trace example_factory_Start example_order example_ctx []
          = pre ++ [FactoryStart]
       /\ run_world example_factory_Start example_order example_ctx []
          = example_factory_Start (InformerFactory example_ctx) (StopCh example_ctx) w'.
Proof.
  apply (start_failure_is_contained example_factory_Start example_catalog
           example_order example_ctx [] "metadata" "timed out"
           example_range_order example_failure).
Defined.

Lemma example_disabled :
  CallEnabled "services" false
    ∈ run_trace example_factory_Start example_order example_ctx [].
Proof. rewrite example_run. by repeat constructor. Qed.

Lemma disabled_entry_never_started_witness :
  CallEnabled "services" false
    ∈ run_trace example_factory_Start example_order example_ctx []
  /\ ~ exists res,
        CallStart "services" res
          ∈ run_trace example_factory_Start example_order example_ctx [].
Proof.
  split; [apply example_disabled |].
  intros [res Hres].
  exact (disabled_entry_never_started example_factory_Start example_catalog
           example_order example_ctx [] "services"
           example_range_order example_disabled res Hres).
Defined.



(** The run of the example, world by world: the failing start of metadata
    and the start of endpoints have both left their mark, and the factory was
    started last. *)
Example example_world :
  run_world example_factory_Start example_order example_ctx []
  = ["informers"; "endpoints"; "metadata"].
Proof. reflexivity. Qed.

End OrchestratorFacts.

(** * Facts about the catalog and the start functions *)

Module ControllersFacts.
Import Orchestrator Controllers OrchestratorFacts.

Local Open Scope list_scope.

(** [a] is none of the elements of an explicit list. *)
Ltac not_listed H :=
  repeat (apply elem_of_cons in H as [H|H]; [discriminate H |]);
  by apply elem_of_nil in H.

(** The configuration after a wait, from what [SyncInformers] keeps. *)
Ltac use_sync H Eq key :=
  match type of Eq with
  | SyncInformers _ ?m ?c = _ =>
      specialize (H m key c); cbv beta in H; rewrite Eq in H; cbn in H
  end.

Section Facts.

Variable E : Env.

Implicit Types (ctx : Context E) (p : Proc E) (c : Cluster E).
Implicit Types (order : list (string * funcs E)).

Lemma startMetadataController_well_behaved : well_behaved E (startMetadataController E).
Proof.
  intros ctx p.
  unfold startMetadataController, bind, call, act, modify.
  destruct (NewMetadataController E (InformerFactory ctx) (cluster p))
    as [mc c1] eqn:E1; cbn.
  match goal with |- context [SyncInformers E ?m c1] =>
    destruct (SyncInformers E m c1) as [res c2] eqn:E2 end; cbn.
  eexists. split; [by rewrite <- !app_assoc |]. split.
  - intros H. not_listed H.
  - intros (H1 & _ & _ & _ & _ & H6) key.
    use_sync H6 E2 key. rewrite H6.
    specialize (H1 (InformerFactory ctx) key (cluster p)). cbv beta in H1.
    by rewrite E1 in H1.
Qed.

Lemma startServicesInformer_well_behaved : well_behaved E (startServicesInformer E).
Proof.
  intros ctx p.
  unfold startServicesInformer, bind, call, act, modify; cbn.
  match goal with |- context [SyncInformers E ?m (cluster p)] =>
    destruct (SyncInformers E m (cluster p)) as [res c2] eqn:E2 end; cbn.
  eexists. split; [by rewrite <- !app_assoc |]. split.
  - intros H. not_listed H.
  - intros (_ & _ & _ & _ & _ & H6) key.
    by use_sync H6 E2 key.
Qed.

Lemma startEndpointsInformer_well_behaved : well_behaved E (startEndpointsInformer E).
Proof.
  intros ctx p.
  unfold startEndpointsInformer, bind, call, act, modify; cbn.
  match goal with |- context [SyncInformers E ?m (cluster p)] =>
    destruct (SyncInformers E m (cluster p)) as [res c2] eqn:E2 end; cbn.
  eexists. split; [by rewrite <- !app_assoc |]. split.
  - intros H. not_listed H.
  - intros (_ & _ & _ & _ & _ & H6) key.
    by use_sync H6 E2 key.
Qed.

Lemma startAutoscalersController_well_behaved :
  well_behaved E (startAutoscalersController E).
Proof.
  intros ctx p.
  unfold startAutoscalersController, bind, call, call_, act, modify, ret.
  destruct (NewDatadogClient E (cluster p)) as [[dogCl [e1|]] c1] eqn:E1; cbn.
  { eexists. split; [done |]. split; [intros H; not_listed H |].
    intros (_ & H2 & _) key. specialize (H2 key (cluster p)). cbv beta in H2.
    by rewrite E1 in H2. }
  destruct (NewAutoscalersController E (Client ctx) (EventRecorder ctx)
              (LeaderElector ctx) dogCl c1) as [[ac [e2|]] c2] eqn:E2; cbn.
  { eexists. split; [by rewrite <- !app_assoc |]. split; [intros H; not_listed H |].
    intros (_ & H2 & H3 & _) key.
    specialize (H3 (Client ctx) (EventRecorder ctx) (LeaderElector ctx) dogCl key c1).
    cbv beta in H3. rewrite E2 in H3. cbn in H3. rewrite H3.
    specialize (H2 key (cluster p)). cbv beta in H2. by rewrite E1 in H2. }
  assert (Hcfg : config_untouched E -> forall key m,
            GetBool E key
              (SyncInformers E m
                 (RunControllerLoop E ac (StopCh ctx)
                    (EnableHPA E ac (InformerFactory ctx) c2))).2
            = GetBool E key (cluster p)).
  { intros (_ & H2 & H3 & H4 & H5 & H6) key m.
    rewrite (H6 m key), (H5 ac (StopCh ctx) key), (H4 ac (InformerFactory ctx) key).
    specialize (H3 (Client ctx) (EventRecorder ctx) (LeaderElector ctx) dogCl key c1).
    cbv beta in H3. rewrite E2 in H3. cbn in H3. rewrite H3.
    specialize (H2 key (cluster p)). cbv beta in H2. by rewrite E1 in H2. }
  destruct (WPAInformerFactory ctx) as [wf|]; cbn;
    match goal with |- context [SyncInformers E ?m ?c] =>
      pose proof (fun H key => Hcfg H key m) as Hcfg';
      destruct (SyncInformers E m c) as [res c3] eqn:E3 end; cbn in *;
    (eexists; split; [by rewrite <- !app_assoc |];
     split; [intros H; not_listed H | done]).
Qed.

(** X6.  When the Datadog client or the autoscalers controller cannot be
    built, [startAutoscalersController] returns that error at once: beyond
    the two constructor calls it spawns no goroutine, asks for no informer
    and waits for nothing. *)
Theorem startAutoscalersController_fails_early ctx p e :
  let r1 := NewDatadogClient E (cluster p) in
  let r2 := NewAutoscalersController E (Client ctx) (EventRecorder ctx)
              (LeaderElector ctx) r1.1.1 r1.2 in
  r1.1.2 = Some e \/ (r1.1.2 = None /\ r2.1.2 = Some e) ->
  (startAutoscalersController E ctx p).1 = Some e
  /\ exists evs,
       actions (startAutoscalersController E ctx p).2 = actions p ++ evs
       /\ forall a, a ∈ evs ->
            exists err, a = ActNewDatadogClient err
                        \/ a = ActNewAutoscalersController err.
Proof.
  cbv zeta.
  unfold startAutoscalersController, bind, call, call_, act, modify, ret.
  destruct (NewDatadogClient E (cluster p)) as [[dogCl [e1|]] c1]; cbn.
  - intros [[= ->]|[? _]]; [| done].
    split; [done |]. eexists. split; [done |].
    intros a Ha. apply list_elem_of_singleton in Ha as ->. eauto.
  - destruct (NewAutoscalersController E (Client ctx) (EventRecorder ctx)
                (LeaderElector ctx) dogCl c1) as [[ac [e2|]] c2]; cbn.
    + intros [?|[_ [= ->]]]; [done |].
      split; [done |]. eexists. split; [by rewrite <- !app_assoc |].
      intros a Ha.
      apply elem_of_cons in Ha as [->|Ha]; [eauto |].
      apply list_elem_of_singleton in Ha as ->. eauto.
    + by intros [?|[_ ?]].
Qed.

(** X7.  When both constructors succeed, [startAutoscalersController] ends
    by waiting for its informers and returns what the wait returns.  It waits
    for the HPA informer always and for the WPA informer exactly when the
    context carries a WPA informer factory; the WPA goroutine is spawned in
    that case only, the HPA goroutine always. *)
Theorem startAutoscalersController_watches ctx p :
  let r1 := NewDatadogClient E (cluster p) in
  let r2 := NewAutoscalersController E (Client ctx) (EventRecorder ctx)
              (LeaderElector ctx) r1.1.1 r1.2 in
  r1.1.2 = None -> r2.1.2 = None ->
  exists evs res,
    actions (startAutoscalersController E ctx p).2 = actions p ++ evs
    /\ last evs
       = Some (ActSyncInformers
                 (match WPAInformerFactory ctx with
                  | Some _ => <["hpa" := hpaInformer]> (<["wpa" := wpaInformer]> ∅)
                  | None => <["hpa" := hpaInformer]> ∅
                  end) res)
    /\ (startAutoscalersController E ctx p).1 = res
    /\ (ActGo AutoscalersRunWPA ∈ evs <-> is_Some (WPAInformerFactory ctx))
    /\ ActGo AutoscalersRunHPA ∈ evs.
Proof.
  cbv zeta.
  unfold startAutoscalersController, bind, call, call_, act, modify, ret.
  destruct (NewDatadogClient E (cluster p)) as [[dogCl [e1|]] c1]; cbn; [done |].
  intros _.
  destruct (NewAutoscalersController E (Client ctx) (EventRecorder ctx)
              (LeaderElector ctx) dogCl c1) as [[ac [e2|]] c2]; cbn; [done |].
  intros _.
  destruct (WPAInformerFactory ctx) as [wf|]; cbn;
    match goal with |- context [SyncInformers E ?m ?c] =>
      destruct (SyncInformers E m c) as [res c3] end; cbn;
    (eexists _, res; split; [by rewrite <- !app_assoc |]);
    (split; [done |]); (split; [done |]); (split; [| by repeat constructor]).
  - split; [done |]. intros _. by repeat constructor.
  - split; [| by intros [? ?]]. intros H. not_listed H.
Qed.

(** *** The catalog *)

Lemma catalog_entries n (f : funcs E) :
  controllerCatalog E !! n = Some f ->
  well_behaved E (start f)
  /\ exists key, catalog_key n = Some key /\ enabled f = config_flag E key.
Proof.
  unfold controllerCatalog. intros Hf.
  repeat (apply lookup_insert_Some in Hf as [[<- <-]|[_ Hf]];
          [split; [first [apply startMetadataController_well_behaved
                         | apply startAutoscalersController_well_behaved
                         | apply startServicesInformer_well_behaved
                         | apply startEndpointsInformer_well_behaved]
                  | by eexists] |]).
  by rewrite lookup_empty in Hf.
Qed.

Lemma catalog_key_lookup n :
  is_Some (controllerCatalog E !! n) <-> is_Some (catalog_key n).
Proof.
  split.
  - intros [f Hf]. destruct (catalog_entries n f Hf) as (_ & key & -> & _). by eexists.
  - unfold catalog_key, controllerCatalog. intros [key Hk].
    destruct (decide (n = "metadata")) as [->|?];
      [rewrite lookup_insert_eq; by eexists | rewrite lookup_insert_ne by done].
    destruct (decide (n = "autoscalers")) as [->|?];
      [rewrite lookup_insert_eq; by eexists | rewrite lookup_insert_ne by done].
    destruct (decide (n = "services")) as [->|?];
      [rewrite lookup_insert_eq; by eexists | rewrite lookup_insert_ne by done].
    destruct (decide (n = "endpoints")) as [->|?];
      [rewrite lookup_insert_eq; by eexists | done].
Qed.

(** The predicates of the catalog answer by the flags of the configuration,
    which stay what they were in [c] as long as the packages leave them. *)
Lemma catalog_stable c :
  config_untouched E ->
  stable_flags
    (fun p : Proc E => forall key, GetBool E key (cluster p) = GetBool E key c)
    (fun n => match catalog_key n with
              | Some key => GetBool E key c
              | None => false
              end)
    (controllerCatalog E).
Proof.
  intros Hcfg n f Hf w HI.
  destruct (catalog_entries n f Hf) as (Hwb & key & -> & ->).
  cbn. split; [apply HI |]. split; [done |].
  intros ctx'. destruct (Hwb ctx' w) as (evs & _ & _ & Hkeep).
  intros k. by rewrite (Hkeep Hcfg k).
Qed.

Lemma flag_of_key c name :
  (is_Some (controllerCatalog E !! name)
   /\ match catalog_key name with
      | Some key => GetBool E key c
      | None => false
      end = true)
  <-> exists key, catalog_key name = Some key /\ GetBool E key c = true.
Proof.
  rewrite catalog_key_lookup. split.
  - intros [[key Hk] Hon]. rewrite Hk in Hon. by exists key.
  - intros (key & Hk & Hon). rewrite Hk. split; [by eexists | done].
Qed.

(** The flag that decides about controller [n] when the run starts in [c],
    as the log shows it. *)
Lemma started_by_flag order ctx c name :
  config_untouched E ->
  range_order (controllerCatalog E) order ->
  (exists res, CallStart name res ∈ run_events E order ctx c)
  <-> exists key, catalog_key name = Some key /\ GetBool E key c = true.
Proof.
  intros Hcfg Hord. unfold run_events.
  rewrite (flagged_start_events (InformerFactory_Start E) _ _
             (controllerCatalog E) order ctx _ name Hord (catalog_stable c Hcfg));
    [| done].
  apply flag_of_key.
Qed.

(** X8.  With the catalog of the source, and packages that leave the
    configuration alone, a run of [StartControllers] applies the start
    function of a controller exactly when its configuration flag is set at
    the beginning of the run: metadata by kubernetes_collect_metadata_tags,
    autoscalers by external_metrics_provider.enabled, services and endpoints
    by cluster_checks.enabled; no other name is ever started. *)
Theorem started_by_configuration order ctx c name :
  config_untouched E ->
  range_order (controllerCatalog E) order ->
  really_started (InformerFactory_Start E) order ctx
    {| cluster := c; actions := [] |} name
  <-> exists key, catalog_key name = Some key /\ GetBool E key c = true.
Proof.
  intros Hcfg Hord.
  rewrite (really_started_flagged (InformerFactory_Start E) _ _
             (controllerCatalog E) order ctx _ name Hord (catalog_stable c Hcfg));
    [| done].
  apply flag_of_key.
Qed.

(** X9.  The services informer and the endpoints informer hang on the same
    flag: in every run one is started exactly when the other is. *)
Theorem services_and_endpoints_together order ctx c :
  config_untouched E ->
  range_order (controllerCatalog E) order ->
  (exists res, CallStart "services" res ∈ run_events E order ctx c)
  <-> (exists res, CallStart "endpoints" res ∈ run_events E order ctx c).
Proof.
  intros Hcfg Hord. rewrite !started_by_flag by done.
  split; intros (key & [= <-] & Hon); by eexists.
Qed.

(** X10.  On the process, the start of the shared informer factory is the
    last action of a run and happens once: every informer a start function
    asks for, every goroutine it spawns and every wait of [SyncInformers]
    comes before it. *)
Theorem factory_started_last order ctx c :
  range_order (controllerCatalog E) order ->
  exists pre,
    actions (run_process E order ctx c) = pre ++ [ActFactoryStart]
    /\ (ActFactoryStart ∉ pre).
Proof.
  intros Hord.
  pose proof (range_loop_invariant (fun p : Proc E => ActFactoryStart ∉ actions p)
                ctx order (init {| cluster := c; actions := [] |})) as Hinv.
  unfold run_process, Controllers.StartControllers, Orchestrator.StartControllers,
    exec, bind, call_factory_Start, ret in *.
  destruct (range_loop ctx order (init {| cluster := c; actions := [] |}))
    as [[] r1]. cbn in *.
  eexists. split; [done |]. apply Hinv.
  - intros n f Hin w HI.
    unfold range_order in Hord. rewrite Hord in Hin.
    apply elem_of_map_to_list in Hin.
    destruct (catalog_entries n f Hin) as (Hwb & key & _ & ->).
    split; [done |]. intros ctx'.
    destruct (Hwb ctx' w) as (evs & -> & Hq & _).
    intros H. apply elem_of_app in H as [H|H]; [by apply HI | by apply Hq].
  - apply not_elem_of_nil.
Qed.

Lemma range_loop_all_off ctx order (r : Run (Proc E)) :
  (forall n f, (n, f) ∈ order -> exists key, enabled f = config_flag E key) ->
  (forall key, GetBool E key (cluster (world r)) = false) ->
  world (exec (range_loop ctx order) r) = world r
  /\ exists evs,
       trace (exec (range_loop ctx order) r) = trace r ++ evs
       /\ forall n res, CallStart n res ∉ evs.
Proof.
  revert r. induction order as [|[name f] rest IH]; intros r Hflag Hoff.
  - split; [done |]. exists []. split; [by rewrite app_nil_r |].
    intros n res. apply not_elem_of_nil.
  - destruct (Hflag name f) as [key Hkey]; [by left |].
    assert (Hstep : range_step ctx (name, f) r
                    = (tt, {| world := world r;
                              trace := trace r ++ [CallEnabled name false; LogInfof name] |})).
    { unfold range_step, bind, call_enabled, emit, modify. rewrite Hkey.
      unfold config_flag. rewrite Hoff. cbn. by rewrite <- app_assoc. }
    assert (Hcons : range_loop ctx ((name, f) :: rest) r
                    = range_loop ctx rest
                        {| world := world r;
                           trace := trace r ++ [CallEnabled name false; LogInfof name] |}).
    { cbn [range_loop]. unfold bind at 1. by rewrite Hstep. }
    unfold exec in *. rewrite Hcons.
    destruct (IH {| world := world r;
                    trace := trace r ++ [CallEnabled name false; LogInfof name] |})
      as (Hw & evs & Htr & Hno); [intros n g Hin; apply (Hflag n g); by right | done |].
    split; [done |].
    exists ([CallEnabled name false; LogInfof name] ++ evs).
    split; [rewrite Htr; cbn [trace]; by rewrite <- app_assoc |].
    intros n res H. apply elem_of_app in H as [H|H]; [| by apply (Hno n res)].
    not_listed H.
Qed.

(** X18.  With every flag of the configuration off, a run of
    [StartControllers] over the catalog calls no start routine and leaves the
    process untouched but for the one start of the informer factory. *)
Theorem nothing_enabled order ctx c :
  range_order (controllerCatalog E) order ->
  (forall key, GetBool E key c = false) ->
  run_process E order ctx c
  = {| cluster := Factory_Start E (InformerFactory ctx) (StopCh ctx) c;
       actions := [ActFactoryStart] |}
  /\ forall n res, CallStart n res ∉ run_events E order ctx c.
Proof.
  intros Hord Hoff.
  destruct (range_loop_all_off ctx order (init {| cluster := c; actions := [] |}))
    as (Hw & evs & Htr & Hno); [| done |].
  { intros n f Hin. unfold range_order in Hord. rewrite Hord in Hin.
    apply elem_of_map_to_list in Hin.
    destruct (catalog_entries n f Hin) as (_ & key & _ & ->). by exists key. }
  unfold run_process, run_events, run_trace, Controllers.StartControllers,
    Orchestrator.StartControllers, exec, bind, call_factory_Start, ret in *.
  destruct (range_loop ctx order (init {| cluster := c; actions := [] |}))
    as [[] r1]. cbn in *. subst.
  split; [by rewrite Hw |].
  intros n res H. apply elem_of_app in H as [H|H]; [by apply (Hno n res) |].
  by apply list_elem_of_singleton in H.
Qed.

End Facts.

Lemma example_range_is_order :
  range_order (controllerCatalog (example_env false)) example_range.
Proof.
  unfold range_order, controllerCatalog, example_range.
  rewrite !map_to_list_insert, map_to_list_empty by (by vm_compute).
  etrans; [apply Permutation_swap |]. apply perm_skip.
  etrans; [| apply Permutation_swap]. apply perm_skip.
  apply Permutation_swap.
Qed.

Lemma example_config_untouched : config_untouched (example_env false).
Proof. by repeat split. Qed.

Lemma example_endpoints_first_is_order :
  range_order (controllerCatalog (example_env false)) example_endpoints_first.
Proof.
  unfold range_order, controllerCatalog, example_endpoints_first.
  rewrite !map_to_list_insert, map_to_list_empty by (by vm_compute).
  etrans; [apply perm_skip, perm_skip, Permutation_swap |].
  apply Permutation_cons_append.
Qed.

(** C1, as stated, fails.  With the catalog of the source, the metadata
    controller and the cluster checks enabled, and [range] reaching the
    endpoints entry first, [startEndpointsInformer] sets the shared endpoints
    informer running ([go ...Endpoints().Informer().Run(ctx.StopCh)]) before
    the metadata controller, which is enabled and is handed that informer, has
    so much as been created: events of that stream are dispatched before an
    enabled controller can have subscribed.  The start of the factory comes
    later still. *)
Lemma endpoints_informer_runs_before_metadata_subscribes :
  range_order (controllerCatalog (example_env false)) example_endpoints_first
  /\ really_started (InformerFactory_Start (example_env false)) example_endpoints_first
       (example_context false)
       {| cluster := (example_config_on : Cluster (example_env false)); actions := [] |}
       "metadata"
  /\ exists pre post,
       actions (run_process (example_env false) example_endpoints_first
                  (example_context false) example_config_on)
       = pre ++ ActGo (InformerRun endpointsInformer) :: post
       /\ (ActNewMetadataController ∉ pre)
       /\ ActNewMetadataController ∈ post
       /\ ActFactoryStart ∈ post.
Proof.
  split; [apply example_endpoints_first_is_order |]. split.
  - apply (really_started_flagged (InformerFactory_Start (example_env false)) _ _
             (controllerCatalog (example_env false)) example_endpoints_first
             (example_context false) _ "metadata"
             example_endpoints_first_is_order
             (catalog_stable (example_env false) example_config_on
                example_config_untouched)); [done |].
    split; [by eexists | reflexivity].
  - exists [ActInformer endpointsInformer]. eexists. split; [by vm_compute |].
    split; [intros H; not_listed H |].
    split; by repeat constructor.
Qed.

Lemma nothing_enabled_witness :
  run_process (example_env false) example_range (example_context false) ∅
  = {| cluster := Factory_Start (example_env false)
                    (InformerFactory (example_context false))
                    (StopCh (example_context false)) ∅;
       actions := [ActFactoryStart] |}
  /\ forall n res,
       CallStart n res
         ∉ run_events (example_env false) example_range (example_context false) ∅.
Proof.
  apply (nothing_enabled (example_env false) example_range (example_context false) ∅
           example_range_is_order).
  intros key. reflexivity.
Defined.

Lemma started_by_configuration_witness :
  really_started (InformerFactory_Start (example_env false)) example_range
    (example_context false)
    {| cluster := (example_config : Cluster (example_env false)); actions := [] |}
    "endpoints"
  <-> exists key,
        catalog_key "endpoints" = Some key
        /\ GetBool (example_env false) key example_config = true.
Proof.
  apply (started_by_configuration (example_env false) example_range
           (example_context false) example_config "endpoints"
           example_config_untouched example_range_is_order).
Defined.

Lemma services_and_endpoints_together_witness :
  (exists res,
     CallStart "services" res
       ∈ run_events (example_env false) example_range (example_context false)
           example_config)
  <-> (exists res,
         CallStart "endpoints" res
           ∈ run_events (example_env false) example_range (example_context false)
               example_config).
Proof.
  apply (services_and_endpoints_together (example_env false) example_range
           (example_context false) example_config
           example_config_untouched example_range_is_order).
Defined.

Lemma factory_started_last_witness :
  exists pre,
    actions (run_process (example_env false) example_range (example_context false)
               example_config)
    = pre ++ [ActFactoryStart]
    /\ (ActFactoryStart ∉ pre).
Proof.
  apply (factory_started_last (example_env false) example_range
           (example_context false) example_config example_range_is_order).
Defined.

Example example_process :
  actions (run_process (example_env false) example_range (example_context false)
             example_config)
  = [ActInformer servicesInformer; ActGo (InformerRun servicesInformer);
     ActInformer servicesInformer;
     ActSyncInformers (<["services" := servicesInformer]> ∅) None;
     ActInformer endpointsInformer; ActGo (InformerRun endpointsInformer);
     ActInformer endpointsInformer;
     ActSyncInformers (<["endpoints" := endpointsInformer]> ∅) None;
     ActFactoryStart].
Proof. by vm_compute. Qed.

Lemma startAutoscalersController_fails_early_witness :
  let p := {| cluster := (∅ : Cluster (example_env true)); actions := [] |} in
  (startAutoscalersController (example_env true) (example_context true) p).1
  = Some "missing API key"
  /\ exists evs,
       actions (startAutoscalersController (example_env true) (example_context true) p).2
       = actions p ++ evs
       /\ forall a, a ∈ evs ->
            exists err, a = ActNewDatadogClient err
                        \/ a = ActNewAutoscalersController err.
Proof.
  apply (startAutoscalersController_fails_early (example_env true)
           (example_context true) {| cluster := ∅; actions := [] |}
           "missing API key").
  left. reflexivity.
Defined.

Lemma startAutoscalersController_watches_witness :
  let p := {| cluster := (∅ : Cluster (example_env false)); actions := [] |} in
  exists evs res,
    actions (startAutoscalersController (example_env false) (example_context true) p).2
    = actions p ++ evs
    /\ last evs
       = Some (ActSyncInformers
                 (match WPAInformerFactory (example_context true) with
                  | Some _ => <["hpa" := hpaInformer]> (<["wpa" := wpaInformer]> ∅)
                  | None => <["hpa" := hpaInformer]> ∅
                  end) res)
    /\ (startAutoscalersController (example_env false) (example_context true) p).1 = res
    /\ (ActGo AutoscalersRunWPA ∈ evs <-> is_Some (WPAInformerFactory (example_context true)))
    /\ ActGo AutoscalersRunHPA ∈ evs.
Proof.
  apply (startAutoscalersController_watches (example_env false)
           (example_context true) {| cluster := ∅; actions := [] |});
    reflexivity.
Defined.

Example startAutoscalersController_with_wpa :
  (startAutoscalersController (example_env false) (example_context true)
     {| cluster := ∅; actions := [] |}).1
  = Some "timed out: wpa".
Proof. by vm_compute. Qed.

Example startAutoscalersController_without_wpa :
  (startAutoscalersController (example_env false) (example_context false)
     {| cluster := ∅; actions := [] |}).1
  = None.
Proof. by vm_compute. Qed.

End ControllersFacts.

(** * Facts about the query API *)

Module QueryAPIFacts.
Import QueryAPI.

(** *** Encoding *)

(** A successful encoding is never empty: it is [null], a quoted string, or
    a bracketed list. *)
Lemma encode_nonempty escape v b :
  encode escape v = inl b -> (0 < String.length b)%nat.
Proof.
  destruct v as [|s|l|kvs|e]; cbn [encode].
  - intros [= <-]. simpl. lia.
  - intros [= <-]. unfold encodeString, dquote. simpl. lia.
  - destruct ((fix elems (l : list GoValue) := _) l); intros [= <-]. simpl. lia.
  - destruct ((fix members (kvs : list (string * GoValue)) := _) kvs);
      intros [= <-]. simpl. lia.
  - discriminate.
Qed.

Lemma json_Marshal_cases escape v :
  (exists b, json_Marshal escape v = (b, None) /\ encode escape v = inl b
             /\ (0 <? String.length b)%nat = true
             /\ negb (String.length b =? 0)%nat = true)
  \/ (exists e, json_Marshal escape v = ("", Some e) /\ encode escape v = inr e).
Proof.
  unfold json_Marshal. destruct (encode escape v) as [b|e] eqn:E.
  - left. exists b. pose proof (encode_nonempty _ _ _ E).
    repeat split; [by apply Nat.ltb_lt |].
    apply negb_true_iff, Nat.eqb_neq. lia.
  - right. by exists e.
Qed.

Example encode_nil : encode id VNil = inl "null".
Proof. reflexivity. Qed.

Example encode_tags :
  encode id (VSlice [VString "kube_service:svc-a"; VString "kube_service:svc-b"])
  = inl ("[" +:+ dquote +:+ "kube_service:svc-a" +:+ dquote +:+ ","
         +:+ dquote +:+ "kube_service:svc-b" +:+ dquote +:+ "]").
Proof. reflexivity. Qed.

Example encode_unsupported :
  encode id (VMap [("n1", VSlice [VUnsupported "json: unsupported type: chan int"])])
  = inr "json: unsupported type: chan int".
Proof. reflexivity. Qed.

(** Case analysis on what the collaborator and the encoder return. *)
Ltac marshal_cases escape v :=
  let b := fresh "b" in
  let e := fresh "e" in
  let Hm := fresh "Hm" in
  let He := fresh "He" in
  let Hpos := fresh "Hpos" in
  let Hne := fresh "Hne" in
  destruct (json_Marshal_cases escape v)
    as [(b & Hm & He & Hpos & Hne) | (e & Hm & He)];
  rewrite Hm; cbv beta iota zeta; rewrite ?Hpos, ?Hne; cbn;
  change (String.append EmptyString) with (fun x : string => x);
  cbv beta.

(** *** getNodeMetadata *)

Lemma getNodeMetadata_outcomes escape GetNodeLabels r c :
  let s := exec (getNodeMetadata escape GetNodeLabels r) (fresh c) in
  (status (w s) = Some StatusOK
   /\ apiRequests s = counter_Inc ("getNodeMetadata", Itoa StatusOK) c)
  \/ (status (w s) = Some StatusInternalServerError
      /\ apiRequests s = counter_Inc ("getNodeMetadata", Itoa StatusInternalServerError) c).
Proof.
  unfold getNodeMetadata, exec, bind.
  destruct (GetNodeLabels _) as [nodeLabels [e|]]; [by right |].
  marshal_cases escape nodeLabels; [by left | by right].
Qed.

(** Whatever the label lookup returns, the handler never answers not-found:
    the encoding of a value is never empty, so the test on its length always
    takes the 200 branch. *)
Lemma getNodeMetadata_never_not_found escape GetNodeLabels r c :
  status (w (exec (getNodeMetadata escape GetNodeLabels r) (fresh c)))
  ≠ Some StatusNotFound.
Proof.
  by destruct (getNodeMetadata_outcomes escape GetNodeLabels r c) as [[-> _]|[-> _]].
Qed.

(** C4, as stated, fails.  For the node "unknown": a lookup that fails with
    the error the handler documents ("no cached metadata found for the node
    ...") is answered with status 500; a lookup that returns no labels and no
    error is answered with status 200 and the body [null]; and no lookup
    result at all is answered with not-found. *)
Lemma getNodeMetadata_unknown_not_404 :
  status (w (exec (getNodeMetadata id example_no_labels (example_request "unknown"))
                  (fresh ∅)))
  = Some StatusInternalServerError
  /\ w (exec (getNodeMetadata id (fun _ => (VNil, None)) (example_request "unknown"))
             (fresh ∅))
     = {| status := Some StatusOK; body := "null" |}
  /\ ~ exists escape GetNodeLabels c,
        status (w (exec (getNodeMetadata escape GetNodeLabels (example_request "unknown"))
                        (fresh c)))
        = Some StatusNotFound.
Proof.
  split; [reflexivity |]. split; [reflexivity |].
  intros (escape & G & c & H).
  by apply (getNodeMetadata_never_not_found escape G (example_request "unknown") c).
Qed.

(** C4, amended.  When the label lookup for the queried node fails, which is
    how the handler's documentation describes a node without cached metadata,
    [getNodeMetadata] answers with status 500 and the text of the lookup's
    error, logs one error line naming the node, and counts the request under
    (getNodeMetadata, 500). *)
Theorem getNodeMetadata_lookup_failure escape GetNodeLabels r c e :
  (GetNodeLabels (index (Vars r) "nodeName")).2 = Some e ->
  let s := exec (getNodeMetadata escape GetNodeLabels r) (fresh c) in
  w s = {| status := Some StatusInternalServerError; body := e +:+ newline |}
  /\ apiRequests s
     = counter_Inc ("getNodeMetadata", Itoa StatusInternalServerError) c
  /\ logged s
     = [(ErrorLvl, "Could not retrieve the node labels of "
                     +:+ index (Vars r) "nodeName" +:+ ": " +:+ e)].
Proof.
  unfold getNodeMetadata, exec, bind.
  destruct (GetNodeLabels _) as [nodeLabels err]. cbn. by intros ->.
Qed.

Lemma getNodeMetadata_lookup_failure_witness :
  let s := exec (getNodeMetadata id example_no_labels (example_request "unknown"))
                (fresh ∅) in
  w s = {| status := Some StatusInternalServerError;
           body := "no cached metadata found for the node unknown" +:+ newline |}
  /\ apiRequests s
     = counter_Inc ("getNodeMetadata", Itoa StatusInternalServerError) ∅
  /\ logged s
     = [(ErrorLvl, "Could not retrieve the node labels of "
                     +:+ index (Vars (example_request "unknown")) "nodeName" +:+ ": "
                     +:+ "no cached metadata found for the node unknown")].
Proof.
  apply (getNodeMetadata_lookup_failure id example_no_labels
           (example_request "unknown") ∅
           "no cached metadata found for the node unknown").
  reflexivity.
Defined.

(** *** getPodMetadata *)

Lemma getPodMetadata_outcomes escape GetPodMetadataNames r c :
  let s := exec (getPodMetadata escape GetPodMetadataNames r) (fresh c) in
  (status (w s) = Some StatusOK
   /\ apiRequests s = counter_Inc ("getPodMetadata", Itoa StatusOK) c)
  \/ (status (w s) = Some StatusInternalServerError
      /\ apiRequests s = counter_Inc ("getPodMetadata", Itoa StatusInternalServerError) c).
Proof.
  unfold getPodMetadata, exec, bind.
  destruct (GetPodMetadataNames _ _ _) as [metaList [e|]]; [by right |].
  marshal_cases escape metaList; [by left | by right].
Qed.

(** *** getPodMetadataForNode *)

Lemma getPodMetadataForNode_outcomes escape G r c :
  let s := exec (getPodMetadataForNode escape G r) (fresh c) in
  let metaList := (G (index (Vars r) "nodeName")).1 in
  (status (w s) = Some StatusOK
   /\ encode escape metaList = inl (body (w s))
   /\ apiRequests s = counter_Inc ("getPodMetadataForNode", Itoa StatusOK) c)
  \/ (status (w s) = Some StatusInternalServerError
      /\ (exists e, encode escape metaList = inr e /\ body (w s) = e +:+ newline)
      /\ apiRequests s
         = counter_Inc ("getPodMetadataForNode", Itoa StatusInternalServerError) c).
Proof.
  unfold getPodMetadataForNode, exec, bind.
  destruct (G _) as [metaList [e0|]]; cbn [fst];
    marshal_cases escape metaList;
    first [by left | right; split; [done |]; split; [by exists e | done]].
Qed.

(** C7.  [getPodMetadataForNode] answers either with status 200 and the
    encoding of the map the lookup returned, or, when that map cannot be
    encoded, with status 500 and the encoder's error; it never answers
    not-found. *)
Theorem getPodMetadataForNode_200_or_500 escape G r c :
  let s := exec (getPodMetadataForNode escape G r) (fresh c) in
  let metaList := (G (index (Vars r) "nodeName")).1 in
  ((status (w s) = Some StatusOK /\ encode escape metaList = inl (body (w s)))
   \/ (status (w s) = Some StatusInternalServerError
       /\ exists e, encode escape metaList = inr e /\ body (w s) = e +:+ newline))
  /\ status (w s) ≠ Some StatusNotFound.
Proof.
  cbn zeta.
  destruct (getPodMetadataForNode_outcomes escape G r c)
    as [(Hs & Hb & _)|(Hs & Hb & _)]; rewrite Hs.
  - split; [by left | done].
  - split; [by right | done].
Qed.

(** A lookup error alone does not change the answer: it is logged as a
    warning and the map is served with status 200. *)
Example getPodMetadataForNode_lookup_warning :
  let s := exec (getPodMetadataForNode id (fun _ => (VMap [], Some "node not in cache"))
                   (example_request "n1")) (fresh ∅) in
  w s = {| status := Some StatusOK; body := "{}" |}
  /\ logged s
     = [(TraceLvl, "Fetching metadata map on all pods of the node n1");
        (WarnLvl, "Could not collect the service map for n1, err: node not in cache")].
Proof. split; reflexivity. Qed.

(** *** getAllMetadata *)

(** The status line goes out before the bundle is encoded: 200 when the
    computation reported no error, 503 when it did. *)
Lemma getAllMetadata_status_sent escape {APIClient} (cl : APIClient) GetAll r c :
  status (w (exec (getAllMetadata escape (cl, None) GetAll r) (fresh c)))
  = Some (match (GetAll cl).2 with
          | None => StatusOK
          | Some _ => StatusServiceUnavailable
          end).
Proof.
  unfold getAllMetadata, exec, bind.
  destruct (GetAll cl) as [metaList [e0|]]; cbn [snd];
    by marshal_cases escape metaList.
Qed.

Lemma getAllMetadata_encoded escape {APIClient} (cl : APIClient) GetAll r c bytes :
  encode escape (GetAll cl).1 = inl bytes ->
  let s := exec (getAllMetadata escape (cl, None) GetAll r) (fresh c) in
  body (w s) = bytes
  /\ apiRequests s = counter_Inc ("getAllMetadata", Itoa StatusOK) c.
Proof.
  unfold getAllMetadata, exec, bind.
  destruct (GetAll cl) as [metaList [e0|]]; cbn [fst]; intros E;
    marshal_cases escape metaList;
    first [congruence | split; [congruence | done]].
Qed.

(** C6, as stated, fails.  The bundle the handler documents as its example
    for status 200 is partial (it carries an error marker for Node3); returned
    without an error it is answered with status 200, not 503.  And a 503
    answer need not carry any node's data: when the computation returns an
    error and no bundle, the body is [null]. *)
Lemma getAllMetadata_partial_is_200 :
  status (w (exec (getAllMetadata id (tt, None)
                     (fun _ => (example_documented_bundle, None)) {| Vars := ∅ |})
                  (fresh ∅)))
  = Some StatusOK
  /\ w (exec (getAllMetadata id (tt, None)
                (fun _ => (VNil, Some "List services is not permitted at the cluster scope"))
                {| Vars := ∅ |})
             (fresh ∅))
     = {| status := Some StatusServiceUnavailable; body := "null" |}.
Proof. split; reflexivity. Qed.

(** C6, amended.  Once the API client is there, [getAllMetadata] sends
    status 200 when the computation over all nodes returns no error, whatever
    error markers the bundle carries, and status 503 when it returns an
    error; in both cases, when the value it returned encodes, the body is
    that encoding. *)
Theorem getAllMetadata_status_follows_error escape {APIClient} (cl : APIClient)
    GetAll r c bytes :
  encode escape (GetAll cl).1 = inl bytes ->
  let s := exec (getAllMetadata escape (cl, None) GetAll r) (fresh c) in
  status (w s) = Some (match (GetAll cl).2 with
                       | None => StatusOK
                       | Some _ => StatusServiceUnavailable
                       end)
  /\ body (w s) = bytes.
Proof.
  intros E. cbn zeta. split.
  - apply getAllMetadata_status_sent.
  - by apply getAllMetadata_encoded.
Qed.

Lemma getAllMetadata_status_follows_error_witness :
  let s := exec (getAllMetadata id (tt, None) example_all_nodes {| Vars := ∅ |})
                (fresh ∅) in
  status (w s) = Some StatusServiceUnavailable
  /\ body (w s) = example_partial_bytes.
Proof.
  apply (getAllMetadata_status_follows_error id tt example_all_nodes
           {| Vars := ∅ |} ∅ example_partial_bytes).
  reflexivity.
Defined.

(** C5, at a failing input.  For a cluster in which one node fails,
    [getAllMetadata] sends status 503 and then increments the counter under
    (getAllMetadata, 200): the 503 series stays untouched. *)
Theorem getAllMetadata_partial_counted_as_200 :
  let s := exec (getAllMetadata id (tt, None) example_all_nodes {| Vars := ∅ |})
                (fresh ∅) in
  status (w s) = Some StatusServiceUnavailable
  /\ apiRequests s !! ("getAllMetadata", "200") = Some 1%nat
  /\ apiRequests s !! ("getAllMetadata", "503") = None.
Proof. by vm_compute. Qed.

(** The same for every partial answer that can be encoded. *)
Lemma getAllMetadata_partial_counter escape {APIClient} (cl : APIClient)
    GetAll r c bytes e :
  encode escape (GetAll cl).1 = inl bytes ->
  (GetAll cl).2 = Some e ->
  let s := exec (getAllMetadata escape (cl, None) GetAll r) (fresh c) in
  status (w s) = Some StatusServiceUnavailable
  /\ apiRequests s = counter_Inc ("getAllMetadata", Itoa StatusOK) c.
Proof.
  intros E He. cbn zeta. split.
  - by rewrite getAllMetadata_status_sent, He.
  - by eapply getAllMetadata_encoded.
Qed.

(** When the bundle cannot be encoded the handler calls [http.Error] with
    500 after the status line has gone out: the status stays what it was, the
    body is the encoder's error, and the counter is incremented under 500. *)
Example getAllMetadata_unencodable :
  let s := exec (getAllMetadata id (tt, None)
                   (fun _ => (VUnsupported "json: unsupported type", None))
                   {| Vars := ∅ |}) (fresh ∅) in
  w s = {| status := Some StatusOK; body := "json: unsupported type" +:+ newline |}
  /\ apiRequests s !! ("getAllMetadata", "500") = Some 1%nat.
Proof. by vm_compute. Qed.

(** *** getAllCFAppsMetadata *)

(** The first error path counts the request under another handler name. *)
Example getAllCFAppsMetadata_counter_name :
  let s := exec (getAllCFAppsMetadata id (tt, Some "no BBS cache") (fun _ => VNil)
                   {| Vars := ∅ |}) (fresh ∅) in
  status (w s) = Some StatusInternalServerError
  /\ apiRequests s !! ("getCFAppMetadata", "500") = Some 1%nat
  /\ apiRequests s !! ("getAllCFAppsMetadata", "500") = None.
Proof. by vm_compute. Qed.

(** *** All handlers *)

Lemma counter_Inc_one_increment key c : one_increment c (counter_Inc key c).
Proof.
  exists key. intros k. unfold counter_Inc.
  destruct (decide (k = key)) as [->|Hne].
  - by rewrite lookup_insert_eq.
  - by rewrite lookup_insert_ne.
Qed.

Lemma getAllMetadata_outcomes escape {APIClient} (GetAPIClient : APIClient * option error)
    GetAll r c :
  let s := exec (getAllMetadata escape GetAPIClient GetAll r) (fresh c) in
  answered_with [StatusOK; StatusInternalServerError; StatusServiceUnavailable] s
  /\ exists key, apiRequests s = counter_Inc key c.
Proof.
  unfold getAllMetadata, exec, bind, answered_with.
  destruct GetAPIClient as [cl [e|]]; cbn.
  { split; [eexists; split; [done | by repeat constructor] | eexists (_, _); reflexivity]. }
  destruct (GetAll cl) as [metaList [e0|]]; cbn;
    marshal_cases escape metaList;
    (split; [eexists; split; [done | by repeat constructor] | eexists (_, _); reflexivity]).
Qed.

Lemma getAllCFAppsMetadata_outcomes escape {BBSCache}
    (GetGlobalBBSCache : BBSCache * option error) ExtractTags r c :
  let s := exec (getAllCFAppsMetadata escape GetGlobalBBSCache ExtractTags r) (fresh c) in
  answered_with [StatusOK; StatusInternalServerError] s
  /\ exists key, apiRequests s = counter_Inc key c.
Proof.
  unfold getAllCFAppsMetadata, exec, bind, answered_with.
  destruct GetGlobalBBSCache as [cache [e|]].
  { cbn. split; [eexists; split; [done | by repeat constructor]
                | eexists (_, _); reflexivity]. }
  cbv beta iota zeta.
  marshal_cases escape (ExtractTags cache);
    (split; [eexists; split; [done | by repeat constructor] | eexists (_, _); reflexivity]).
Qed.

(** X11.  [getNodeMetadata], [getPodMetadata] and [getPodMetadataForNode]
    count every request under their own name and under the status they
    sent. *)
Theorem handlers_count_what_they_send escape GetNodeLabels GetPodMetadataNames
    GetMetadataMapBundleOnNode r c :
  (exists code,
     status (w (exec (getNodeMetadata escape GetNodeLabels r) (fresh c))) = Some code
     /\ apiRequests (exec (getNodeMetadata escape GetNodeLabels r) (fresh c))
        = counter_Inc ("getNodeMetadata", Itoa code) c)
  /\ (exists code,
        status (w (exec (getPodMetadata escape GetPodMetadataNames r) (fresh c)))
        = Some code
        /\ apiRequests (exec (getPodMetadata escape GetPodMetadataNames r) (fresh c))
           = counter_Inc ("getPodMetadata", Itoa code) c)
  /\ (exists code,
        status (w (exec (getPodMetadataForNode escape GetMetadataMapBundleOnNode r)
                        (fresh c)))
        = Some code
        /\ apiRequests (exec (getPodMetadataForNode escape GetMetadataMapBundleOnNode r)
                             (fresh c))
           = counter_Inc ("getPodMetadataForNode", Itoa code) c).
Proof.
  split; [| split].
  - destruct (getNodeMetadata_outcomes escape GetNodeLabels r c) as [[? ?]|[? ?]];
      eauto.
  - destruct (getPodMetadata_outcomes escape GetPodMetadataNames r c) as [[? ?]|[? ?]];
      eauto.
  - destruct (getPodMetadataForNode_outcomes escape GetMetadataMapBundleOnNode r c)
      as [(? & _ & ?)|(? & _ & ?)]; eauto.
Qed.

(** X12.  Each of the five handlers, on every request, raises exactly one
    series of the request counter by one and leaves every other series as it
    was. *)
Theorem every_request_counted_once escape {APIClient BBSCache}
    (GetGlobalBBSCache : BBSCache * option error) ExtractTags
    GetNodeLabels GetPodMetadataNames GetMetadataMapBundleOnNode
    (GetAPIClient : APIClient * option error) GetAll r c :
  one_increment c
    (apiRequests (exec (getAllCFAppsMetadata escape GetGlobalBBSCache ExtractTags r)
                       (fresh c)))
  /\ one_increment c
       (apiRequests (exec (getNodeMetadata escape GetNodeLabels r) (fresh c)))
  /\ one_increment c
       (apiRequests (exec (getPodMetadata escape GetPodMetadataNames r) (fresh c)))
  /\ one_increment c
       (apiRequests (exec (getPodMetadataForNode escape GetMetadataMapBundleOnNode r)
                          (fresh c)))
  /\ one_increment c
       (apiRequests (exec (getAllMetadata escape GetAPIClient GetAll r) (fresh c))).
Proof.
  repeat split.
  - destruct (getAllCFAppsMetadata_outcomes escape GetGlobalBBSCache ExtractTags r c)
      as (_ & key & ->). apply counter_Inc_one_increment.
  - destruct (getNodeMetadata_outcomes escape GetNodeLabels r c) as [[_ ->]|[_ ->]];
      apply counter_Inc_one_increment.
  - destruct (getPodMetadata_outcomes escape GetPodMetadataNames r c)
      as [[_ ->]|[_ ->]]; apply counter_Inc_one_increment.
  - destruct (getPodMetadataForNode_outcomes escape GetMetadataMapBundleOnNode r c)
      as [(_ & _ & ->)|(_ & _ & ->)]; apply counter_Inc_one_increment.
  - destruct (getAllMetadata_outcomes escape GetAPIClient GetAll r c)
      as (_ & key & ->). apply counter_Inc_one_increment.
Qed.

(** X13.  Every handler answers every request, and with one of 200, 500 and
    (for [getAllMetadata] only) 503.  None ever answers 404: the branches of
    the handlers that send not-found cannot be reached. *)
Theorem handlers_never_answer_not_found escape {APIClient BBSCache}
    (GetGlobalBBSCache : BBSCache * option error) ExtractTags
    GetNodeLabels GetPodMetadataNames GetMetadataMapBundleOnNode
    (GetAPIClient : APIClient * option error) GetAll r c :
  answered_with [StatusOK; StatusInternalServerError]
    (exec (getAllCFAppsMetadata escape GetGlobalBBSCache ExtractTags r) (fresh c))
  /\ answered_with [StatusOK; StatusInternalServerError]
       (exec (getNodeMetadata escape GetNodeLabels r) (fresh c))
  /\ answered_with [StatusOK; StatusInternalServerError]
       (exec (getPodMetadata escape GetPodMetadataNames r) (fresh c))
  /\ answered_with [StatusOK; StatusInternalServerError]
       (exec (getPodMetadataForNode escape GetMetadataMapBundleOnNode r) (fresh c))
  /\ answered_with [StatusOK; StatusInternalServerError; StatusServiceUnavailable]
       (exec (getAllMetadata escape GetAPIClient GetAll r) (fresh c)).
Proof.
  repeat split.
  - apply getAllCFAppsMetadata_outcomes.
  - destruct (getNodeMetadata_outcomes escape GetNodeLabels r c) as [[? _]|[? _]];
      eexists; (split; [done | by repeat constructor]).
  - destruct (getPodMetadata_outcomes escape GetPodMetadataNames r c)
      as [[? _]|[? _]]; eexists; (split; [done | by repeat constructor]).
  - destruct (getPodMetadataForNode_outcomes escape GetMetadataMapBundleOnNode r c)
      as [(? & _)|(? & _)]; eexists; (split; [done | by repeat constructor]).
  - apply getAllMetadata_outcomes.
Qed.

(** *** The single handlers, path by path *)

(** Two facts about the encoding of one value: they agree or contradict. *)
Ltac same_encoding :=
  match goal with
  | H1 : encode ?f ?v = _, H2 : encode ?f ?v = _ |- _ =>
      rewrite H1 in H2; first [discriminate H2 | injection H2 as <-]
  end.

Lemma getNodeMetadata_found_at escape GetNodeLabels r c labels bytes :
  GetNodeLabels (index (Vars r) "nodeName") = (labels, None) ->
  encode escape labels = inl bytes ->
  exec (getNodeMetadata escape GetNodeLabels r) (fresh c)
  = {| w := {| status := Some StatusOK; body := bytes |};
       apiRequests := counter_Inc ("getNodeMetadata", Itoa StatusOK) c;
       logged := [] |}.
Proof.
  intros Hl He. unfold getNodeMetadata, exec, bind. rewrite Hl.
  marshal_cases escape labels; same_encoding; reflexivity.
Qed.

Lemma getPodMetadata_found_at escape GetPodMetadataNames r c tags bytes :
  GetPodMetadataNames (index (Vars r) "nodeName") (index (Vars r) "ns")
    (index (Vars r) "podName") = (tags, None) ->
  encode escape tags = inl bytes ->
  exec (getPodMetadata escape GetPodMetadataNames r) (fresh c)
  = {| w := {| status := Some StatusOK; body := bytes |};
       apiRequests := counter_Inc ("getPodMetadata", Itoa StatusOK) c;
       logged := [] |}.
Proof.
  intros Hl He. unfold getPodMetadata, exec, bind. rewrite Hl.
  marshal_cases escape tags; same_encoding; reflexivity.
Qed.

(** X14.  When the labels of the node are found and encode, the answer of
    [getNodeMetadata] is status 200 with exactly the encoded labels; the
    request is counted under (getNodeMetadata, 200) and nothing is logged. *)
Theorem getNodeMetadata_found escape GetNodeLabels r c labels bytes :
  GetNodeLabels (index (Vars r) "nodeName") = (labels, None) ->
  encode escape labels = inl bytes ->
  exec (getNodeMetadata escape GetNodeLabels r) (fresh c)
  = {| w := {| status := Some StatusOK; body := bytes |};
       apiRequests := counter_Inc ("getNodeMetadata", Itoa StatusOK) c;
       logged := [] |}.
Proof. apply getNodeMetadata_found_at. Qed.

(** X15.  When the tags of the pod are found and encode, the answer of
    [getPodMetadata] is status 200 with exactly the encoded tags, counted
    under (getPodMetadata, 200), with nothing logged.  The lookup is asked
    with the node, the namespace and the pod of the route, in that order. *)
Theorem getPodMetadata_found escape GetPodMetadataNames r c tags bytes :
  GetPodMetadataNames (index (Vars r) "nodeName") (index (Vars r) "ns")
    (index (Vars r) "podName") = (tags, None) ->
  encode escape tags = inl bytes ->
  exec (getPodMetadata escape GetPodMetadataNames r) (fresh c)
  = {| w := {| status := Some StatusOK; body := bytes |};
       apiRequests := counter_Inc ("getPodMetadata", Itoa StatusOK) c;
       logged := [] |}.
Proof. apply getPodMetadata_found_at. Qed.

(** X16.  When the lookup of the pod's tags fails, [getPodMetadata] answers
    with status 500 and the text of the error, logs one error line naming the
    pod, and counts the request under (getPodMetadata, 500). *)
Theorem getPodMetadata_lookup_failure escape GetPodMetadataNames r c e :
  (GetPodMetadataNames (index (Vars r) "nodeName") (index (Vars r) "ns")
     (index (Vars r) "podName")).2 = Some e ->
  exec (getPodMetadata escape GetPodMetadataNames r) (fresh c)
  = {| w := {| status := Some StatusInternalServerError; body := e +:+ newline |};
       apiRequests := counter_Inc ("getPodMetadata", Itoa StatusInternalServerError) c;
       logged := [(ErrorLvl, "Could not retrieve the metadata of: "
                               +:+ index (Vars r) "podName" +:+ " from the cache")] |}.
Proof.
  unfold getPodMetadata, exec, bind.
  destruct (GetPodMetadataNames _ _ _) as [metaList err]. cbn. by intros ->.
Qed.

(** X17.  An error of the per-node lookup changes neither the response of
    [getPodMetadataForNode] nor what it counts: both are what they would be
    had the lookup returned the same map without an error. *)
Theorem getPodMetadataForNode_ignores_lookup_error escape G r c :
  let quiet := fun node => ((G node).1, @None error) in
  w (exec (getPodMetadataForNode escape G r) (fresh c))
  = w (exec (getPodMetadataForNode escape quiet r) (fresh c))
  /\ apiRequests (exec (getPodMetadataForNode escape G r) (fresh c))
     = apiRequests (exec (getPodMetadataForNode escape quiet r) (fresh c)).
Proof.
  cbv zeta. unfold getPodMetadataForNode, exec, bind.
  destruct (G _) as [metaList [e0|]]; cbn [fst];
    by marshal_cases escape metaList.
Qed.

(** When the API client cannot be created, [getAllMetadata] answers with
    status 500 and the error's text, logs the error and counts the request
    under (getAllMetadata, 500); the computation over all nodes plays no part
    in the answer. *)
Lemma getAllMetadata_client_failure escape {APIClient} (cl : APIClient) e
    GetAll r c :
  exec (getAllMetadata escape (cl, Some e) GetAll r) (fresh c)
  = {| w := {| status := Some StatusInternalServerError; body := e +:+ newline |};
       apiRequests := counter_Inc ("getAllMetadata", Itoa StatusInternalServerError) c;
       logged := [(TraceLvl, "Computing metadata map on all nodes");
                  (ErrorLvl, "Can't create client to query the API Server: " +:+ e)] |}.
Proof. reflexivity. Qed.

(** X19.  When the bundle of all nodes cannot be encoded, the status line of
    [getAllMetadata] has already gone out: the response keeps status 200 (or
    503 for a partial bundle), its body is the encoder's error, and the
    request is counted under (getAllMetadata, 500). *)
Theorem getAllMetadata_encode_failure escape {APIClient} (cl : APIClient)
    GetAll r c e :
  encode escape (GetAll cl).1 = inr e ->
  let s := exec (getAllMetadata escape (cl, None) GetAll r) (fresh c) in
  w s = {| status := Some (match (GetAll cl).2 with
                           | None => StatusOK
                           | Some _ => StatusServiceUnavailable
                           end);
           body := e +:+ newline |}
  /\ apiRequests s
     = counter_Inc ("getAllMetadata", Itoa StatusInternalServerError) c.
Proof.
  unfold getAllMetadata, exec, bind.
  destruct (GetAll cl) as [metaList [e0|]]; cbn [fst snd]; intros E;
    marshal_cases escape metaList; same_encoding; by split.
Qed.

(** X20.  [getAllCFAppsMetadata] answers with status 500 and the error's
    text when the BBS cache cannot be had or the tags cannot be encoded, and
    with status 200 and the encoded tags otherwise; the first of the two
    error paths counts the request under the name getCFAppMetadata. *)
Theorem getAllCFAppsMetadata_answers escape {BBSCache} (cache : BBSCache) err
    ExtractTags r c :
  let s := exec (getAllCFAppsMetadata escape (cache, err) ExtractTags r) (fresh c) in
  match err, encode escape (ExtractTags cache) with
  | Some e, _ =>
      w s = {| status := Some StatusInternalServerError; body := e +:+ newline |}
      /\ apiRequests s
         = counter_Inc ("getCFAppMetadata", Itoa StatusInternalServerError) c
  | None, inr e =>
      w s = {| status := Some StatusInternalServerError; body := e +:+ newline |}
      /\ apiRequests s
         = counter_Inc ("getAllCFAppsMetadata", Itoa StatusInternalServerError) c
  | None, inl bytes =>
      w s = {| status := Some StatusOK; body := bytes |}
      /\ apiRequests s = counter_Inc ("getAllCFAppsMetadata", Itoa StatusOK) c
  end.
Proof.
  cbv zeta. unfold getAllCFAppsMetadata, exec, bind.
  destruct err as [e|]; [done |]. cbv beta iota zeta.
  marshal_cases escape (ExtractTags cache); by rewrite He.
Qed.

Lemma getNodeMetadata_found_witness :
  exec (getNodeMetadata id (fun _ => (VNil, None)) (example_request "n1")) (fresh ∅)
  = {| w := {| status := Some StatusOK; body := "null" |};
       apiRequests := counter_Inc ("getNodeMetadata", Itoa StatusOK) ∅;
       logged := [] |}.
Proof.
  apply (getNodeMetadata_found id (fun _ => (VNil, None)) (example_request "n1")
           ∅ VNil "null"); reflexivity.
Defined.

Lemma getPodMetadata_found_witness :
  exec (getPodMetadata id example_pod_lookup (example_pod_request "n1" "default" "p1"))
       (fresh ∅)
  = {| w := {| status := Some StatusOK;
               body := "[" +:+ dquote +:+ "kube_service:p1" +:+ dquote +:+ "]" |};
       apiRequests := counter_Inc ("getPodMetadata", Itoa StatusOK) ∅;
       logged := [] |}.
Proof.
  apply (getPodMetadata_found id example_pod_lookup
           (example_pod_request "n1" "default" "p1") ∅
           (VSlice [VString "kube_service:p1"])); reflexivity.
Defined.

Lemma getPodMetadata_lookup_failure_witness :
  exec (getPodMetadata id example_pod_lookup (example_pod_request "n2" "default" "p1"))
       (fresh ∅)
  = {| w := {| status := Some StatusInternalServerError;
               body := "no metadata for pod p1 on node n2" +:+ newline |};
       apiRequests := counter_Inc ("getPodMetadata", Itoa StatusInternalServerError) ∅;
       logged := [(ErrorLvl, "Could not retrieve the metadata of: "
                               +:+ index (Vars (example_pod_request "n2" "default" "p1"))
                                     "podName"
                               +:+ " from the cache")] |}.
Proof.
  apply (getPodMetadata_lookup_failure id example_pod_lookup
           (example_pod_request "n2" "default" "p1") ∅
           "no metadata for pod p1 on node n2").
  reflexivity.
Defined.

Lemma getAllMetadata_encode_failure_witness :
  let s := exec (getAllMetadata id (tt, None)
                   (fun _ => (VUnsupported "json: unsupported type", Some "n2 failed"))
                   {| Vars := ∅ |}) (fresh ∅) in
  w s = {| status := Some StatusServiceUnavailable;
           body := "json: unsupported type" +:+ newline |}
  /\ apiRequests s
     = counter_Inc ("getAllMetadata", Itoa StatusInternalServerError) ∅.
Proof.
  apply (getAllMetadata_encode_failure id tt
           (fun _ => (VUnsupported "json: unsupported type", Some "n2 failed"))
           {| Vars := ∅ |} ∅ "json: unsupported type").
  reflexivity.
Defined.

End QueryAPIFacts.

(** * Facts about the metadata aggregator *)

Module MetadataAggregatorFacts.
Import MetadataAggregator.

Implicit Types (pb : gmap string (gmap (string * string) (gset string))).
Implicit Types (be : Backend) (tag : string) (b : Bundle).

Example endpoint_add_tags_pod :
  byPod (apply_event false empty_bundle (EndpointAdd example_endpoint))
        "n1" "default" "p1"
  = Some {[ "kube_service:svc-a" ]}.
Proof. by vm_compute. Qed.

Lemma set_node_idempotent n b : set_node n (set_node n b) = set_node n b.
Proof.
  unfold set_node; cbn. by rewrite insert_insert_eq.
Qed.

Lemma add_tag_has tag be pb : has_tag tag be (add_tag tag be pb).
Proof.
  unfold has_tag, add_tag. eexists _, _.
  rewrite !lookup_insert_eq. split; [done |]. split; [done |].
  set_solver.
Qed.

Lemma add_tag_keeps tag be be' pb :
  has_tag tag be' pb -> has_tag tag be' (add_tag tag be pb).
Proof.
  intros (pods & tags & Hn & Hk & Ht). unfold has_tag, add_tag.
  destruct (decide (backend_node be = backend_node be')) as [En|En].
  - rewrite En, Hn, lookup_insert_eq. cbn.
    destruct (decide ((backend_ns be, backend_pod be)
                      = (backend_ns be', backend_pod be'))) as [Ek|Ek].
    + rewrite Ek, Hk. cbn. eexists _, _.
      rewrite lookup_insert_eq. split; [done |]. split; [done |]. set_solver.
    + eexists _, tags. split; [done |].
      by rewrite lookup_insert_ne.
  - exists pods, tags. by rewrite lookup_insert_ne.
Qed.

Lemma add_tag_absorbed tag be pb : has_tag tag be pb -> add_tag tag be pb = pb.
Proof.
  intros (pods & tags & Hn & Hk & Ht). unfold add_tag.
  rewrite Hn. cbn. rewrite Hk. cbn.
  assert ({[tag]} ∪ tags = tags) as ->
    by (apply subseteq_union_1_L; by apply singleton_subseteq_l).
  by rewrite (insert_id pods), (insert_id pb).
Qed.

Lemma foldl_add_tag_keeps tag be (l : list Backend) pb :
  has_tag tag be pb ->
  has_tag tag be (foldl (fun pb be => add_tag tag be pb) pb l).
Proof.
  revert pb. induction l as [|x l IH]; intros pb H; cbn; [done |].
  by apply IH, add_tag_keeps.
Qed.

Lemma foldl_add_tag_has tag be (l : list Backend) pb :
  be ∈ l -> has_tag tag be (foldl (fun pb be => add_tag tag be pb) pb l).
Proof.
  revert pb. induction l as [|x l IH]; intros pb H; cbn.
  - by apply elem_of_nil in H.
  - apply elem_of_cons in H as [->|H].
    + apply foldl_add_tag_keeps, add_tag_has.
    + by apply IH.
Qed.

Lemma foldl_add_tag_absorbed tag (l : list Backend) pb :
  (forall be, be ∈ l -> has_tag tag be pb) ->
  foldl (fun pb be => add_tag tag be pb) pb l = pb.
Proof.
  induction l as [|x l IH]; intros H; cbn; [done |].
  rewrite add_tag_absorbed by (apply H; by left).
  apply IH. intros be Hbe. apply H. by right.
Qed.

Lemma tag_backends_idempotent e b :
  tag_backends e (tag_backends e b) = tag_backends e b.
Proof.
  unfold tag_backends; cbn. f_equal.
  apply foldl_add_tag_absorbed. intros be Hbe.
  by apply foldl_add_tag_has.
Qed.

(** C8 (replaying an Add event).  For every bundle, every Node-add event and
    every Endpoint-add event, applying the event a second time leaves the
    bundle as it was after the first time, under either pruning policy. *)
Theorem add_event_idempotent prune b :
  (forall n,
     apply_event prune (apply_event prune b (NodeAdd n)) (NodeAdd n)
     = apply_event prune b (NodeAdd n))
  /\ (forall e,
        apply_event prune (apply_event prune b (EndpointAdd e)) (EndpointAdd e)
        = apply_event prune b (EndpointAdd e)).
Proof.
  split; intros x; cbn.
  - apply set_node_idempotent.
  - apply tag_backends_idempotent.
Qed.

End MetadataAggregatorFacts.

(** * Facts about the routes *)

Module RoutesFacts.
Import QueryAPI Routes QueryAPIFacts.

Local Open Scope list_scope.

Example segments_of_a_path : segments "/tags/pod/n1" = ["tags"; "pod"; "n1"].
Proof. reflexivity. Qed.

Lemma append_empty_r (s : string) : s +:+ "" = s.
Proof.
  induction s as [|c s IH]; [done |].
  change (String c (s +:+ "") = String c s). by rewrite IH.
Qed.

Lemma append_assoc (a b c : string) : (a +:+ b) +:+ c = a +:+ (b +:+ c).
Proof.
  induction a as [|x a IH]; [done |].
  change (String x ((a +:+ b) +:+ c) = String x (a +:+ (b +:+ c))). by rewrite IH.
Qed.

(** A name without a slash is taken into the current segment whole. *)
Lemma split_slash_no_slash n rest cur :
  no_slash n = true ->
  split_slash (n +:+ rest) cur = split_slash rest (cur +:+ n).
Proof.
  revert cur. induction n as [|c n IH]; intros cur Hn.
  - by rewrite append_empty_r.
  - simpl in Hn. apply andb_true_iff in Hn as [Hc Hn].
    apply negb_true_iff in Hc. simpl. rewrite Hc, (IH _ Hn).
    by rewrite append_assoc.
Qed.

Lemma split_slash_last n cur :
  no_slash n = true -> split_slash n cur = [cur +:+ n].
Proof.
  intros Hn. rewrite <- (append_empty_r n) at 1.
  by rewrite split_slash_no_slash.
Qed.

Lemma split_slash_segment n rest cur :
  no_slash n = true ->
  split_slash (n +:+ String slash rest) cur = (cur +:+ n) :: split_slash rest "".
Proof.
  intros Hn. by rewrite split_slash_no_slash.
Qed.

Lemma plain_no_slash n : plain n = true -> no_slash n = true.
Proof. unfold plain. intros H. by apply andb_true_iff in H as [_ ?]. Qed.

Lemma plain_not_empty n : plain n = true -> n ≠ "".
Proof.
  unfold plain. intros H. apply andb_true_iff in H as [H _].
  apply andb_true_iff in H as [H _]. apply negb_true_iff in H.
  by apply bool_decide_eq_false in H.
Qed.

Lemma plain_clean n : plain n = true -> negb (is_dot n) && negb (bool_decide (n = "")) = true.
Proof.
  unfold plain. intros H. apply andb_true_iff in H as [H _].
  apply andb_true_iff in H as [H1 H2]. by rewrite H1, H2.
Qed.

Lemma plain_clean_last n : plain n = true -> negb (is_dot n) = true.
Proof.
  intros H. apply plain_clean in H. by apply andb_true_iff in H as [? _].
Qed.

Lemma segments_node n :
  plain n = true -> segments ("/tags/node/" +:+ n) = ["tags"; "node"; n].
Proof.
  intros H. unfold segments.
  change ("/tags/node/" +:+ n)
    with ("" +:+ String slash ("tags" +:+ String slash ("node" +:+ String slash n))).
  rewrite !split_slash_segment by reflexivity.
  by rewrite (split_slash_last n "" (plain_no_slash _ H)).
Qed.

Lemma segments_pod_node n :
  plain n = true -> segments ("/tags/pod/" +:+ n) = ["tags"; "pod"; n].
Proof.
  intros H. unfold segments.
  change ("/tags/pod/" +:+ n)
    with ("" +:+ String slash ("tags" +:+ String slash ("pod" +:+ String slash n))).
  rewrite !split_slash_segment by reflexivity.
  by rewrite (split_slash_last n "" (plain_no_slash _ H)).
Qed.

Lemma segments_pod n ns p :
  plain n = true -> plain ns = true -> plain p = true ->
  segments ("/tags/pod/" +:+ n +:+ "/" +:+ ns +:+ "/" +:+ p)
  = ["tags"; "pod"; n; ns; p].
Proof.
  intros Hn Hns Hp. unfold segments.
  change ("/tags/pod/" +:+ n +:+ "/" +:+ ns +:+ "/" +:+ p)
    with ("" +:+ String slash ("tags" +:+ String slash ("pod" +:+ String slash
            (n +:+ String slash (ns +:+ String slash p))))).
  rewrite !(split_slash_segment "") by reflexivity.
  rewrite (split_slash_segment "tags"), (split_slash_segment "pod") by reflexivity.
  rewrite (split_slash_segment n _ "" (plain_no_slash _ Hn)).
  rewrite (split_slash_segment ns _ "" (plain_no_slash _ Hns)).
  by rewrite (split_slash_last p "" (plain_no_slash _ Hp)).
Qed.

Lemma clean_node n : plain n = true -> is_clean ("/tags/node/" +:+ n) = true.
Proof.
  intros H. unfold is_clean. rewrite segments_node by done. simpl.
  by rewrite (plain_clean_last _ H).
Qed.

Lemma clean_pod_node n : plain n = true -> is_clean ("/tags/pod/" +:+ n) = true.
Proof.
  intros H. unfold is_clean. rewrite segments_pod_node by done. simpl.
  by rewrite (plain_clean_last _ H).
Qed.

Lemma clean_pod n ns p :
  plain n = true -> plain ns = true -> plain p = true ->
  is_clean ("/tags/pod/" +:+ n +:+ "/" +:+ ns +:+ "/" +:+ p) = true.
Proof.
  intros Hn Hns Hp. unfold is_clean. rewrite segments_pod by done. simpl.
  by rewrite (plain_clean _ Hn), (plain_clean _ Hns), (plain_clean_last _ Hp).
Qed.

Example a_dot_segment_is_redirected :
  is_clean "/tags/node/." = false /\ is_clean "/tags//pod" = false
  /\ is_clean "/tags/pod/n1/../n2" = false /\ is_clean "/tags/pod" = true.
Proof. by vm_compute. Qed.

Example template_of_pod_route :
  parse_template "/tags/pod/{nodeName}/{ns}/{podName}"
  = [Lit "tags"; Lit "pod"; Var "nodeName"; Var "ns"; Var "podName"].
Proof. reflexivity. Qed.

Section Facts.

Variable escape : string -> string.
Context {APIClient BBSCache ServerContext : Type}.
Variable GetGlobalBBSCache : BBSCache * option error.
Variable ExtractTags : BBSCache -> GoValue.
Variable GetNodeLabels : string -> GoValue * option error.
Variable GetPodMetadataNames : string -> string -> string -> GoValue * option error.
Variable GetMetadataMapBundleOnNode : string -> GoValue * option error.
Variable GetAPIClient : APIClient * option error.
Variable GetMetadataMapBundleOnAllNodes : APIClient -> GoValue * option error.
Variables installClusterCheckEndpoints installEndpointsCheckEndpoints :
  list Route -> ServerContext -> list Route.

Local Abbreviation v1 :=
  (v1_routes escape GetGlobalBBSCache ExtractTags GetNodeLabels GetPodMetadataNames
     GetMetadataMapBundleOnNode GetAPIClient GetMetadataMapBundleOnAllNodes).
Local Abbreviation install :=
  (Install escape GetGlobalBBSCache ExtractTags GetNodeLabels GetPodMetadataNames
     GetMetadataMapBundleOnNode GetAPIClient GetMetadataMapBundleOnAllNodes
     installClusterCheckEndpoints installEndpointsCheckEndpoints).

(** The table [Install] registers, in the order of the source. *)
Lemma v1_routes_table r :
  v1 r
  = r ++ [ {| template := [Lit "tags"; Lit "pod"; Var "nodeName"; Var "ns"; Var "podName"];
              methods := ["GET"];
              handler := getPodMetadata escape GetPodMetadataNames |};
           {| template := [Lit "tags"; Lit "pod"; Var "nodeName"];
              methods := ["GET"];
              handler := getPodMetadataForNode escape GetMetadataMapBundleOnNode |};
           {| template := [Lit "tags"; Lit "pod"];
              methods := ["GET"];
              handler := getAllMetadata escape GetAPIClient GetMetadataMapBundleOnAllNodes |};
           {| template := [Lit "tags"; Lit "node"; Var "nodeName"];
              methods := ["GET"];
              handler := getNodeMetadata escape GetNodeLabels |};
           {| template := [Lit "tags"; Lit "cf"; Lit "apps"];
              methods := ["GET"];
              handler := getAllCFAppsMetadata escape GetGlobalBBSCache ExtractTags |} ].
Proof.
  unfold v1_routes, HandleFunc. by rewrite <- !app_assoc.
Qed.

Lemma mux_match_app r r' method path x :
  mux_match r method path = Some x -> mux_match (r ++ r') method path = Some x.
Proof.
  induction r as [|rt r IH]; [done |]. cbn.
  by destruct (match_route rt method path).
Qed.

Lemma Install_extends sc :
  only_appends installClusterCheckEndpoints ->
  only_appends installEndpointsCheckEndpoints ->
  exists more, install [] sc = v1 [] ++ more.
Proof.
  intros H1 H2. unfold Install.
  destruct (H1 (v1 []) sc) as [m1 ->].
  destruct (H2 (v1 [] ++ m1) sc) as [m2 ->].
  exists (m1 ++ m2). by rewrite app_assoc.
Qed.

Lemma ServeHTTP_Install sc method path h vars :
  only_appends installClusterCheckEndpoints ->
  only_appends installEndpointsCheckEndpoints ->
  is_clean path = true ->
  mux_match (v1 []) method (segments path) = Some (h, vars) ->
  ServeHTTP (install [] sc) method path = Handled (h {| Vars := vars |}).
Proof.
  intros H1 H2 Hc Hm. destruct (Install_extends sc H1 H2) as [more ->].
  unfold ServeHTTP. by rewrite Hc, (mux_match_app _ more _ _ _ Hm).
Qed.

Lemma match_GET rt path :
  methods rt = ["GET"] -> match_route rt "GET" path = match_template (template rt) path.
Proof.
  intros Hm. unfold match_route. rewrite Hm.
  rewrite decide_True; [done | by left].
Qed.

(** Deciding the comparisons a match makes, with what is known of the
    path's segments. *)
Ltac route_cases :=
  rewrite v1_routes_table; cbn [app mux_match];
  unfold match_route; cbn [template methods handler match_template];
  repeat (first [rewrite decide_True by (first [done | by left])
                | rewrite decide_False by (first [done | by inversion 1])]);
  cbn [fmap option_fmap option_map].

Lemma match_pod n ns p :
  n ≠ "" -> ns ≠ "" -> p ≠ "" ->
  mux_match (v1 []) "GET" ["tags"; "pod"; n; ns; p]
  = Some (getPodMetadata escape GetPodMetadataNames,
          <["nodeName" := n]> (<["ns" := ns]> (<["podName" := p]> ∅))).
Proof. intros ? ? ?. by route_cases. Qed.

Lemma match_pod_node n :
  n ≠ "" ->
  mux_match (v1 []) "GET" ["tags"; "pod"; n]
  = Some (getPodMetadataForNode escape GetMetadataMapBundleOnNode,
          <["nodeName" := n]> ∅).
Proof. intros ?. by route_cases. Qed.

Lemma match_all :
  mux_match (v1 []) "GET" ["tags"; "pod"]
  = Some (getAllMetadata escape GetAPIClient GetMetadataMapBundleOnAllNodes, ∅).
Proof. by route_cases. Qed.

Lemma match_node n :
  n ≠ "" ->
  mux_match (v1 []) "GET" ["tags"; "node"; n]
  = Some (getNodeMetadata escape GetNodeLabels, <["nodeName" := n]> ∅).
Proof. intros ?. by route_cases. Qed.

Lemma match_cf :
  mux_match (v1 []) "GET" ["tags"; "cf"; "apps"]
  = Some (getAllCFAppsMetadata escape GetGlobalBBSCache ExtractTags, ∅).
Proof. by route_cases. Qed.

(** X21.  On a fresh router, [Install] sends GET requests for the five v1
    paths to the five handlers, each with the variables of its path bound to
    the path's segments, whatever routes the two later installers add.  The
    names in the path are plain: not empty, not [.] or [..], without a slash;
    for other names the router redirects or finds no route. *)
Theorem v1_dispatch sc n ns p :
  only_appends installClusterCheckEndpoints ->
  only_appends installEndpointsCheckEndpoints ->
  plain n = true -> plain ns = true -> plain p = true ->
  ServeHTTP (install [] sc) "GET" ("/tags/pod/" +:+ n +:+ "/" +:+ ns +:+ "/" +:+ p)
  = Handled (getPodMetadata escape GetPodMetadataNames
               {| Vars := <["nodeName" := n]> (<["ns" := ns]> (<["podName" := p]> ∅)) |})
  /\ ServeHTTP (install [] sc) "GET" ("/tags/pod/" +:+ n)
     = Handled (getPodMetadataForNode escape GetMetadataMapBundleOnNode
                  {| Vars := <["nodeName" := n]> ∅ |})
  /\ ServeHTTP (install [] sc) "GET" "/tags/pod"
     = Handled (getAllMetadata escape GetAPIClient GetMetadataMapBundleOnAllNodes
                  {| Vars := ∅ |})
  /\ ServeHTTP (install [] sc) "GET" ("/tags/node/" +:+ n)
     = Handled (getNodeMetadata escape GetNodeLabels {| Vars := <["nodeName" := n]> ∅ |})
  /\ ServeHTTP (install [] sc) "GET" "/tags/cf/apps"
     = Handled (getAllCFAppsMetadata escape GetGlobalBBSCache ExtractTags
                  {| Vars := ∅ |}).
Proof.
  intros H1 H2 Hn Hns Hp.
  pose proof (plain_not_empty _ Hn). pose proof (plain_not_empty _ Hns).
  pose proof (plain_not_empty _ Hp).
  repeat split; apply ServeHTTP_Install; try assumption.
  - by apply clean_pod.
  - rewrite segments_pod by done. by apply match_pod.
  - by apply clean_pod_node.
  - rewrite segments_pod_node by done. by apply match_pod_node.
  - reflexivity.
  - apply match_all.
  - by apply clean_node.
  - rewrite segments_node by done. by apply match_node.
  - reflexivity.
  - apply match_cf.
Qed.

(** X22.  None of the five routes takes a request whose method is not GET,
    whatever its path. *)
Theorem v1_only_GET method path :
  method ≠ "GET" -> mux_match (v1 []) method path = None.
Proof.
  intros Hm. rewrite v1_routes_table. cbn [app mux_match].
  unfold match_route. cbn [methods].
  rewrite !decide_False; [done | ..];
    intros H; by apply list_elem_of_singleton in H.
Qed.

(** X23.  End to end: after [Install] on a fresh router, GET /tags/node/n for
    a plain node name n whose labels are found is answered with status 200
    and the encoded labels of that node. *)
Theorem GET_node_labels sc n labels bytes c :
  only_appends installClusterCheckEndpoints ->
  only_appends installEndpointsCheckEndpoints ->
  plain n = true ->
  GetNodeLabels n = (labels, None) ->
  encode escape labels = inl bytes ->
  exists h,
    ServeHTTP (install [] sc) "GET" ("/tags/node/" +:+ n) = Handled h
    /\ exec h (fresh c)
       = {| w := {| status := Some StatusOK; body := bytes |};
            apiRequests := counter_Inc ("getNodeMetadata", Itoa StatusOK) c;
            logged := [] |}.
Proof.
  intros H1 H2 Hn Hl He. eexists. split.
  - apply ServeHTTP_Install; [done | done | by apply clean_node |].
    rewrite segments_node by done. apply match_node. by apply plain_not_empty.
  - apply (getNodeMetadata_found_at escape GetNodeLabels _ c labels bytes);
      [| done]. unfold index. cbn. by rewrite lookup_insert_eq.
Qed.

(** X24.  End to end: GET /tags/pod/n/ns/p, for plain names, asks for the
    tags of pod p in namespace ns on node n, and answers with status 200 and
    those tags, encoded, when they are found. *)
Theorem GET_pod_tags sc n ns p tags bytes c :
  only_appends installClusterCheckEndpoints ->
  only_appends installEndpointsCheckEndpoints ->
  plain n = true -> plain ns = true -> plain p = true ->
  GetPodMetadataNames n ns p = (tags, None) ->
  encode escape tags = inl bytes ->
  exists h,
    ServeHTTP (install [] sc) "GET" ("/tags/pod/" +:+ n +:+ "/" +:+ ns +:+ "/" +:+ p)
    = Handled h
    /\ exec h (fresh c)
       = {| w := {| status := Some StatusOK; body := bytes |};
            apiRequests := counter_Inc ("getPodMetadata", Itoa StatusOK) c;
            logged := [] |}.
Proof.
  intros H1 H2 Hn Hns Hp Hl He. eexists. split.
  - apply ServeHTTP_Install; [done | done | by apply clean_pod |].
    rewrite segments_pod by done.
    apply match_pod; by apply plain_not_empty.
  - apply (getPodMetadata_found_at escape GetPodMetadataNames _ c tags bytes);
      [| done]. unfold index. cbn.
    rewrite lookup_insert_eq. cbn.
    rewrite lookup_insert_ne, lookup_insert_eq by done. cbn.
    by rewrite !lookup_insert_ne, lookup_insert_eq by done.
Qed.

(** X25.  Paths that fall short of a route reach none of the five handlers:
    a pod path without the pod's name, and a node or pod path whose variable
    segment is empty. *)
Theorem v1_incomplete_paths n ns :
  mux_match (v1 []) "GET" ["tags"; "pod"; n; ns] = None
  /\ mux_match (v1 []) "GET" ["tags"; "node"; ""] = None
  /\ mux_match (v1 []) "GET" ["tags"; "pod"; ""] = None
  /\ mux_match (v1 []) "GET" ["tags"; "node"] = None.
Proof.
  repeat split; rewrite v1_routes_table; cbn [app mux_match];
    unfold match_route; cbn [template methods handler match_template];
    repeat (first [rewrite decide_True by (first [done | by left])
                  | rewrite decide_False by done]);
    repeat (case_decide; cbn [fmap option_fmap option_map]; try done).
Qed.

End Facts.

Lemma example_installer_appends tpl : only_appends (example_installer tpl).
Proof. intros r sc. by eexists. Qed.

Lemma v1_dispatch_witness :
  ServeHTTP example_router "GET"
    ("/tags/pod/" +:+ "n1" +:+ "/" +:+ "default" +:+ "/" +:+ "p1")
  = Handled (getPodMetadata id example_pod_lookup
               {| Vars := <["nodeName" := "n1"]>
                            (<["ns" := "default"]> (<["podName" := "p1"]> ∅)) |})
  /\ ServeHTTP example_router "GET" ("/tags/pod/" +:+ "n1")
     = Handled (getPodMetadataForNode id (fun _ => (VMap [], None))
                  {| Vars := <["nodeName" := "n1"]> ∅ |})
  /\ ServeHTTP example_router "GET" "/tags/pod"
     = Handled (getAllMetadata id (tt, None) (fun _ : unit => (VMap [], None))
                  {| Vars := ∅ |})
  /\ ServeHTTP example_router "GET" ("/tags/node/" +:+ "n1")
     = Handled (getNodeMetadata id (fun _ => (VNil, None))
                  {| Vars := <["nodeName" := "n1"]> ∅ |})
  /\ ServeHTTP example_router "GET" "/tags/cf/apps"
     = Handled (getAllCFAppsMetadata id (tt, None) (fun _ : unit => VNil)
                  {| Vars := ∅ |}).
Proof.
  apply (v1_dispatch id (tt, None) (fun _ : unit => VNil) (fun _ => (VNil, None))
           example_pod_lookup (fun _ => (VMap [], None)) (tt, None)
           (fun _ : unit => (VMap [], None))
           (example_installer "/clusterchecks") (example_installer "/endpointschecks")
           tt "n1" "default" "p1"
           (example_installer_appends "/clusterchecks")
           (example_installer_appends "/endpointschecks")); reflexivity.
Defined.

Lemma v1_only_GET_witness :
  mux_match
    (v1_routes id (tt, None) (fun _ : unit => VNil) (fun _ => (VNil, None))
       example_pod_lookup (fun _ => (VMap [], None)) (tt, None)
       (fun _ : unit => (VMap [], None)) [])
    "POST" ["tags"; "pod"]
  = None.
Proof.
  apply (v1_only_GET id (tt, None) (fun _ : unit => VNil) (fun _ => (VNil, None))
           example_pod_lookup (fun _ => (VMap [], None)) (tt, None)
           (fun _ : unit => (VMap [], None)) "POST" ["tags"; "pod"]).
  done.
Defined.

Lemma GET_node_labels_witness :
  exists h,
    ServeHTTP example_router "GET" ("/tags/node/" +:+ "n1") = Handled h
    /\ exec h (fresh ∅)
       = {| w := {| status := Some StatusOK; body := "null" |};
            apiRequests := counter_Inc ("getNodeMetadata", Itoa StatusOK) ∅;
            logged := [] |}.
Proof.
  apply (GET_node_labels id (tt, None) (fun _ : unit => VNil) (fun _ => (VNil, None))
           example_pod_lookup (fun _ => (VMap [], None)) (tt, None)
           (fun _ : unit => (VMap [], None))
           (example_installer "/clusterchecks") (example_installer "/endpointschecks")
           tt "n1" VNil "null" ∅
           (example_installer_appends "/clusterchecks")
           (example_installer_appends "/endpointschecks")); reflexivity.
Defined.

Lemma GET_pod_tags_witness :
  exists h,
    ServeHTTP example_router "GET"
      ("/tags/pod/" +:+ "n1" +:+ "/" +:+ "default" +:+ "/" +:+ "p1")
    = Handled h
    /\ exec h (fresh ∅)
       = {| w := {| status := Some StatusOK;
                    body := "[" +:+ dquote +:+ "kube_service:p1" +:+ dquote +:+ "]" |};
            apiRequests := counter_Inc ("getPodMetadata", Itoa StatusOK) ∅;
            logged := [] |}.
Proof.
  apply (GET_pod_tags id (tt, None) (fun _ : unit => VNil) (fun _ => (VNil, None))
           example_pod_lookup (fun _ => (VMap [], None)) (tt, None)
           (fun _ : unit => (VMap [], None))
           (example_installer "/clusterchecks") (example_installer "/endpointschecks")
           tt "n1" "default" "p1" (VSlice [VString "kube_service:p1"])
           ("[" +:+ dquote +:+ "kube_service:p1" +:+ dquote +:+ "]") ∅
           (example_installer_appends "/clusterchecks")
           (example_installer_appends "/endpointschecks")); reflexivity.
Defined.

(** Requests the router does not hand to a handler: a dot segment is
    redirected, and so is a doubled slash. *)
Example redirected_requests :
  ServeHTTP example_router "GET" "/tags/node/." = Moved
  /\ ServeHTTP example_router "GET" "/tags/node/.." = Moved
  /\ ServeHTTP example_router "GET" "/tags//pod" = Moved.
Proof. by vm_compute. Qed.

End RoutesFacts.
